(** * vscode-flowr: position tracking, slice updates and the session registry

    A shallow embedding of
      - [src/src/extension.ts], second document (the position slicer:
        [docSlicers], [addPositions], class [PositionSlicer], [shiftOffset]);
      - [src/src/extension.ts], first document, and [src/unnamed/part_000]
        (the two revisions of the session registry: [establishInternalSession],
        [establishServerSession], [destroySession]).

    JavaScript numbers that hold offsets, lengths and columns are integers
    here ([Z]); arrays are lists; [Map] is a [gmap]; objects with identity
    (slicers, sessions, decoration types) live in stores and are named by
    their index. *)

From Stdlib Require Import ZArith String List Bool Lia.
From stdpp Require Import base option gmap.
Import ListNotations.

Open Scope Z_scope.

(** ** The host's data *)

(** [vscode.Position] and [vscode.Range]. *)
Record Position := mkPosition { line : Z; character : Z }.
Record Range := mkRange { start : Position; end_ : Position }.

(** A [vscode.TextDocument] object is identified by [DocId]
    ([e.document !== this.doc] compares identities). *)
Abbreviation DocId := positive.

(** What the slicer reads from a document at a given moment: its
    [uri.path], [positionAt], [offsetAt], and the word lookup
    [getPositionAt(pos, doc)] of [./flowr/utils], a module whose source is
    not part of [src/]; the lookup is therefore a parameter of the model,
    like the host's two conversions. *)
Record TextDocument := mkTextDocument {
  uri_path : string;
  positionAt : Z -> Position;
  offsetAt : Position -> Z;
  getPositionAt : Position -> option Range
}.

(** [vscode.TextDocumentContentChangeEvent]: the fields [shiftOffset] reads. *)
Record TextDocumentContentChangeEvent := mkChange {
  rangeOffset : Z;
  rangeLength : Z;
  text : string
}.

(** [cc.text.length] *)
Definition text_length (cc : TextDocumentContentChangeEvent) : Z :=
  Z.of_nat (String.length (text cc)).

(** ** [shiftOffset] *)

(** [function shiftOffset(offset, cc): number | undefined];
    [None] is [undefined]. *)
Definition shiftOffset (offset : Z) (cc : TextDocumentContentChangeEvent)
  : option Z :=
  if rangeOffset cc >? offset then
    (* pos is before range -> no change *)
    Some offset
  else if rangeLength cc + rangeOffset cc >? offset then
    (* pos is inside range -> invalidate pos *)
    None
  else
    (* pos is after range -> adjust pos *)
    let offsetDelta := text_length cc - rangeLength cc in
    let offset1 := offset + offsetDelta in
    Some offset1.

(** ** Array helpers *)

(** [Array.prototype.indexOf]: first index of [x], or [-1]. *)
Fixpoint indexOf (l : list Z) (x : Z) : Z :=
  match l with
  | [] => -1
  | y :: l' =>
      if y =? x then 0
      else let i := indexOf l' x in if i <? 0 then -1 else i + 1
  end.

(** [Array.prototype.includes] *)
Definition includes (l : list Z) (x : Z) : bool := existsb (Z.eqb x) l.

(** ** [PositionSlicer]: the fields and the synchronous methods *)

(** [sliceDecos] and [positionDeco] hold decoration-type objects of the host;
    an object is named by the number under which it was created. *)
Record PositionSlicer := mkSlicer {
  doc : DocId;
  offsets : list Z;
  sliceDecos : option nat;
  positionDeco : nat
}.

Definition set_offsets (s : PositionSlicer) (o : list Z) : PositionSlicer :=
  {| doc := doc s; offsets := o;
     sliceDecos := sliceDecos s; positionDeco := positionDeco s |}.

Definition set_sliceDecos (s : PositionSlicer) (sd : option nat)
  : PositionSlicer :=
  {| doc := doc s; offsets := offsets s;
     sliceDecos := sd; positionDeco := positionDeco s |}.

Section Methods.

(** The current content of [this.doc]. *)
Variable d : TextDocument.

(** [normalizeOffset(offsetOrPos: number | vscode.Position): number] *)
Definition normalizeOffset (offsetOrPos : Z + Position) : Z :=
  let offsetOrPos :=
    match offsetOrPos with
    | inl n => positionAt d n
    | inr p => p
    end in
  match getPositionAt d offsetOrPos with
  | None => -1
  | Some range => offsetAt d (start range)
  end.

(** The first two statements of [togglePositions]: the positions as
    offsets, the failed ones filtered out. *)
Definition normalizedOffsets (positions : list Position) : list Z :=
  let offsets := map (fun pos => normalizeOffset (inr pos)) positions in
  List.filter (fun i => i >=? 0) offsets.

(** The [for(const offset of offsets)] loop of [togglePositions], on
    [this.offsets] and the flag [onlyRemove]. *)
Fixpoint addUntracked (offsets0 : list Z) (this_offsets : list Z)
    (onlyRemove : bool) : list Z * bool :=
  match offsets0 with
  | [] => (this_offsets, onlyRemove)
  | offset :: rest =>
      let idx := indexOf this_offsets offset in
      if idx <? 0 then addUntracked rest (this_offsets ++ [offset]) false
      else addUntracked rest this_offsets onlyRemove
  end.

(** [togglePositions(positions): boolean], with the new [this]. *)
Definition togglePositions (positions : list Position) (this : PositionSlicer)
  : bool * PositionSlicer :=
  let offsets0 := normalizedOffsets positions in
  (* return early if no valid offsets *)
  if (Z.of_nat (length offsets0) =? 0) then (false, this)
  else
    (* add offsets that are not yet tracked *)
    let '(this_offsets, onlyRemove) :=
      addUntracked offsets0 (offsets this) true in
    (* if all offsets are already tracked, toggle them off *)
    let this_offsets :=
      if onlyRemove
      then List.filter (fun offset => negb (includes offsets0 offset))
             this_offsets
      else this_offsets in
    (true, set_offsets this this_offsets).

(** [!offset1] for [offset1 : number | undefined]: [undefined] and [0]
    are the falsy values. *)
Definition falsy (v : option Z) : bool :=
  match v with
  | None => true
  | Some n => n =? 0
  end.

(** The inner loop of [onDocChange],
    [for(const cc of e.contentChanges)], for one offset; the result is the
    value of [offset] when the loop is left. *)
Fixpoint shiftThrough (offset : Z)
    (contentChanges : list TextDocumentContentChangeEvent) : Z :=
  match contentChanges with
  | [] => offset
  | cc :: rest =>
      let offset1 := shiftOffset offset cc in
      if falsy offset1 then -1 (* offset = -1; break *)
      else match offset1 with
           | Some o1 => shiftThrough o1 rest
           | None => -1
           end
  end.

(** The outer loop of [onDocChange], [for(let offset of this.offsets)],
    pushing onto [newOffsets]. *)
Fixpoint remapOffsets
    (contentChanges : list TextDocumentContentChangeEvent)
    (this_offsets : list Z) (newOffsets : list Z) : list Z :=
  match this_offsets with
  | [] => newOffsets
  | offset :: rest =>
      let offset := shiftThrough offset contentChanges in
      let offset := normalizeOffset (inl offset) in
      remapOffsets contentChanges rest
        (if offset >=? 0 then newOffsets ++ [offset] else newOffsets)
  end.

End Methods.

(** ** A one-line document for the examples

    A document of one line of [len] characters whose words occupy the given
    column ranges [(first, last+1)].  [positionAt] and [offsetAt] clamp into
    the text as the host's do; the word lookup accepts a column from the first
    character of a word to the position just behind it. *)
Definition inWord (col : Z) (w : Z * Z) : bool :=
  (fst w <=? col) && (col <=? snd w).

Definition lineDocument (path : string) (len : Z) (words : list (Z * Z))
  : TextDocument :=
  {| uri_path := path;
     positionAt := fun offset => mkPosition 0 (Z.min (Z.max 0 offset) len);
     offsetAt := fun pos => Z.min (Z.max 0 (character pos)) len;
     getPositionAt := fun pos =>
       match find (inWord (character pos)) words with
       | Some w => Some (mkRange (mkPosition 0 (fst w)) (mkPosition 0 (snd w)))
       | None => None
       end |}.

(** ** The host and the effects on it

    Calls that leave the slicer (into the editor, the content provider of
    [./doc-provider], the session, [./slice] and [./selection-slicer]) are
    recorded in a log, oldest first. *)

(** [makeUri(authority, path)] of [./doc-provider]. *)
Record Uri := mkUri { authority : string; path : string }.

(** An element of [sliceElements]: [{ id: NodeId, location: SourceRange }]. *)
Record SliceElement := mkSliceElement { id : string; location : Range }.

(** A [vscode.TextEditor]: its identity and its [document]. *)
Record TextEditor := mkEditor { editor_id : nat; editor_document : DocId }.

Inductive Effect :=
| SetDecorations (editor : nat) (decorationType : nat) (ranges : list Range)
    (* editor.setDecorations(this.positionDeco, ranges) *)
| DisplaySlice (editor : nat) (sliceElements : list SliceElement) (decos : nat)
    (* displaySlice(editor, sliceElements, this.sliceDecos) *)
| DisposePositionDeco (decorationType : nat)   (* this.positionDeco.dispose() *)
| DisposeSliceDecos (decos : nat)              (* this.sliceDecos.dispose() *)
| UpdateContents (uri : Uri) (content : option string)
    (* provider.updateContents(uri, content) *)
| GetFlowrSession                              (* getFlowrSession() *)
| RetrieveSlice (positions : list Position) (document : DocId)
    (* session.retrieveSlice(positions, this.doc) *)
| ClearSelectionSliceDecos (document : DocId).
    (* getSelectionSlicer().clearSliceDecos(undefined, doc) *)

Record Host := mkHost {
  documents : DocId -> TextDocument;       (* the current content of each document *)
  visibleTextEditors : list TextEditor;    (* vscode.window.visibleTextEditors *)
  decoTypes : nat;                         (* calls of makeSliceDecorationTypes() so far *)
  log : list Effect
}.

Definition set_documents (h : Host) (ds : DocId -> TextDocument) : Host :=
  {| documents := ds; visibleTextEditors := visibleTextEditors h;
     decoTypes := decoTypes h; log := log h |}.

Definition set_decoTypes (h : Host) (n : nat) : Host :=
  {| documents := documents h; visibleTextEditors := visibleTextEditors h;
     decoTypes := n; log := log h |}.

Definition set_log (h : Host) (l : list Effect) : Host :=
  {| documents := documents h; visibleTextEditors := visibleTextEditors h;
     decoTypes := decoTypes h; log := l |}.

(** ** A state monad for the imperative code *)

Definition State (S A : Type) : Type := S -> A * S.

Definition ret {S A} (a : A) : State S A := fun s => (a, s).

Definition bind {S A B} (m : State S A) (k : A -> State S B) : State S B :=
  fun s => let '(a, s') := m s in k a s'.

Definition get {S} : State S S := fun s => (s, s).

Definition put {S} (s : S) : State S unit := fun _ => (tt, s).

Declare Scope state_scope.
Delimit Scope state_scope with state.
Notation "x <- m ;; k" := (bind m (fun x => k))
  (at level 100, m at next level, right associativity) : state_scope.
Notation "m ;;; k" := (bind m (fun _ => k))
  (at level 100, right associativity) : state_scope.
Open Scope state_scope.

(** A method of [PositionSlicer] runs on [this] and the host. *)
Definition Method (A : Type) : Type := State (PositionSlicer * Host) A.

Definition this_ : Method PositionSlicer := fun st => (fst st, st).

Definition host_ : Method Host := fun st => (snd st, st).

Definition put_this (s : PositionSlicer) : Method unit :=
  fun st => (tt, (s, snd st)).

Definition emit (e : Effect) : Method unit :=
  fun st => (tt, (fst st, set_log (snd st) (log (snd st) ++ [e]))).

(** [makeSliceDecorationTypes()] of [./slice]: a new object each call. *)
Definition makeSliceDecorationTypes : Method nat :=
  fun st => (decoTypes (snd st),
             (fst st, set_decoTypes (snd st) (S (decoTypes (snd st))))).

(** The content of [this.doc]. *)
Definition this_doc : Method TextDocument :=
  fun st => (documents (snd st) (doc (fst st)), st).

(** ** [PositionSlicer]: the methods with effects *)

Definition positionSlicerAuthority : string := "doc-slicer".
Definition positionSlicerSuffix : string := "Slice".

(** [dispose(): void] *)
Definition dispose : Method unit :=
  (* Clear the content provider, decorations and tracked positions *)
  let uri := mkUri positionSlicerAuthority positionSlicerSuffix in
  emit (UpdateContents uri None) ;;;
  this <- this_ ;;
  emit (DisposePositionDeco (positionDeco this)) ;;;
  match sliceDecos this with
  | Some sd => emit (DisposeSliceDecos sd)
  | None => ret tt
  end.

(** [makeUri(): vscode.Uri] *)
Definition makeUri (d : TextDocument) : Uri :=
  let docPath := (uri_path d ++ " - " ++ positionSlicerSuffix)%string in
  mkUri positionSlicerAuthority docPath.

(** [this.sliceDecos ||= makeSliceDecorationTypes()], giving the value
    of [this.sliceDecos] afterwards. *)
Definition ensureSliceDecos : Method nat :=
  this <- this_ ;;
  match sliceDecos this with
  | Some sd => ret sd
  | None =>
      sd <- makeSliceDecorationTypes ;;
      put_this (set_sliceDecos this (Some sd)) ;;;
      ret sd
  end.

(** The first loop of [updateTargetDecos]: the word ranges at the tracked
    offsets. *)
Fixpoint targetRanges (d : TextDocument) (this_offsets : list Z)
    (ranges : list Range) : list Range :=
  match this_offsets with
  | [] => ranges
  | offset :: rest =>
      let pos := positionAt d offset in
      match getPositionAt d pos with
      | Some range => targetRanges d rest (ranges ++ [range])
      | None => targetRanges d rest ranges
      end
  end.

(** The second loop of [updateTargetDecos], over the visible editors. *)
Fixpoint setTargetDecos (editors : list TextEditor) (ranges : list Range)
  : Method unit :=
  match editors with
  | [] => ret tt
  | editor :: rest =>
      this <- this_ ;;
      (if Pos.eqb (editor_document editor) (doc this) then
         ensureSliceDecos ;;;
         emit (SetDecorations (editor_id editor) (positionDeco this) ranges)
       else ret tt) ;;;
      setTargetDecos rest ranges
  end.

(** [updateTargetDecos(): void] *)
Definition updateTargetDecos : Method unit :=
  (* Update the decorations in the relevant editors *)
  this <- this_ ;;
  d <- this_doc ;;
  h <- host_ ;;
  let ranges := targetRanges d (offsets this) [] in
  setTargetDecos (visibleTextEditors h) ranges.

(** [clearSliceDecos(): void] *)
Definition clearSliceDecos : Method unit :=
  this <- this_ ;;
  match sliceDecos this with
  | Some sd => emit (DisposeSliceDecos sd)
  | None => ret tt
  end ;;;
  this <- this_ ;;
  put_this (set_sliceDecos this None).

(** The last loop of [updateSlices], over the visible editors. *)
Fixpoint displaySlices (editors : list TextEditor)
    (sliceElements : list SliceElement) : Method unit :=
  match editors with
  | [] => ret tt
  | editor :: rest =>
      this <- this_ ;;
      (if Pos.eqb (editor_document editor) (doc this) then
         sd <- ensureSliceDecos ;;
         emit (DisplaySlice (editor_id editor) sliceElements sd)
       else ret tt) ;;;
      displaySlices rest sliceElements
  end.

(** [updateSlices] and [updateOutput] are [async]: they run up to an
    [await], and go on when the awaited promise is settled.  [updateSlices]
    awaits twice, so it comes in three pieces. *)

(** [updateSlices], up to [await getFlowrSession()]. *)
Definition updateSlices_begin : Method unit :=
  (* Update the decos that show the slice results *)
  emit GetFlowrSession.

(** What a piece of [updateSlices] ends with: the returned
    [string | undefined], or the next [await]. *)
Inductive Outcome :=
| Returned (code : option string)
| Awaiting.

(** [updateSlices], from the session to [await session.retrieveSlice(..)]
    or to the early [return]. *)
Definition updateSlices_session : Method Outcome :=
  this <- this_ ;;
  d <- this_doc ;;
  let positions := map (fun offset => positionAt d offset) (offsets this) in
  if (Z.of_nat (length positions) =? 0) then
    clearSliceDecos ;;;
    ret (Returned None)
  else
    emit (RetrieveSlice positions (doc this)) ;;;
    ret Awaiting.

(** [updateSlices], from the answer [{ code, sliceElements }] to the end. *)
Definition updateSlices_answer (code : string)
    (sliceElements : list SliceElement) : Method Outcome :=
  if (Z.of_nat (length sliceElements) =? 0) then
    clearSliceDecos ;;;
    ret (Returned None)
  else
    h <- host_ ;;
    displaySlices (visibleTextEditors h) sliceElements ;;;
    ret (Returned (Some code)).

(** [code || '# No slice']: [undefined] and the empty string are falsy. *)
Definition orNoSlice (code : option string) : string :=
  match code with
  | Some (String c s) => String c s
  | Some EmptyString => "# No slice"
  | None => "# No slice"
  end.

(** [updateOutput], up to the [await] in [updateSlices]. *)
Definition updateOutput_begin : Method unit :=
  updateTargetDecos ;;;
  updateSlices_begin.

(** [updateOutput], after [await this.updateSlices()] has given [code]. *)
Definition updateOutput_end (code : option string) : Method unit :=
  let code := orNoSlice code in
  d <- this_doc ;;
  let uri := makeUri d in
  emit (UpdateContents uri (Some code)).

(** [vscode.TextDocumentChangeEvent] *)
Record TextDocumentChangeEvent := mkEvent {
  document : DocId;
  contentChanges : list TextDocumentContentChangeEvent
}.

(** [onDocChange(e)], up to the [await] in [updateOutput]; [true] when that
    [await] has been reached, [false] after an early [return]. *)
Definition onDocChange (e : TextDocumentChangeEvent) : Method bool :=
  this <- this_ ;;
  (* Check if there are changes to the tracked document *)
  if negb (Pos.eqb (document e) (doc this)) then ret false
  else if (Z.of_nat (length (contentChanges e)) =? 0) then ret false
  else
    (* Compute new offsets after the changes *)
    d <- this_doc ;;
    let newOffsets := remapOffsets d (contentChanges e) (offsets this) [] in
    put_this (set_offsets this newOffsets) ;;;
    (* Update decos and editor output *)
    updateOutput_begin ;;;
    ret true.

(** [togglePositions] as a method, on the content of [this.doc]. *)
Definition togglePositions_call (positions : list Position) : Method bool :=
  this <- this_ ;;
  d <- this_doc ;;
  let '(r, this') := togglePositions d positions this in
  put_this this' ;;;
  ret r.

(** ** The module state: the slicer objects, [docSlicers], pending awaits *)

(** What follows [await this.updateOutput()] in the caller: the rest of
    [addPositions(positions, doc)], or nothing in [onDocChange]. *)
Inductive Caller :=
| InAddPositions (d : DocId)
| InOnDocChange.

(** The [await] of [updateSlices] a call is suspended at. *)
Inductive AwaitPoint :=
| AtGetFlowrSession
| AtRetrieveSlice.

(** A suspended call of [updateOutput] on the slicer [pending_this]. *)
Record Pending := mkPending {
  pending_this : nat;
  pending_await : AwaitPoint;
  pending_caller : Caller
}.

(** [slicers] holds every [PositionSlicer] object constructed so far, in the
    order of construction: the constructor subscribes each to
    [onDidChangeTextDocument], and nothing unsubscribes one.  [docSlicers]
    maps a document to (the index of) its slicer object. *)
Record World := mkWorld {
  host : Host;
  slicers : list PositionSlicer;
  docSlicers : gmap DocId nat;
  pending : list Pending
}.

Definition set_host (w : World) (h : Host) : World :=
  {| host := h; slicers := slicers w;
     docSlicers := docSlicers w; pending := pending w |}.

Definition set_slicers (w : World) (l : list PositionSlicer) : World :=
  {| host := host w; slicers := l;
     docSlicers := docSlicers w; pending := pending w |}.

Definition set_docSlicers (w : World) (m : gmap DocId nat) : World :=
  {| host := host w; slicers := slicers w;
     docSlicers := m; pending := pending w |}.

Definition set_pending (w : World) (l : list Pending) : World :=
  {| host := host w; slicers := slicers w;
     docSlicers := docSlicers w; pending := l |}.

(** A method call on the slicer object [ref]; [None] for a reference to no
    object, which leaves the world as it is. *)
Definition call {A} (ref : nat) (m : Method A) : State World (option A) :=
  fun w =>
    match slicers w !! ref with
    | Some s =>
        let '(a, (s', h')) := m (s, host w) in
        (Some a, set_slicers (set_host w h') (<[ref := s']> (slicers w)))
    | None => (None, w)
    end.

(** [new PositionSlicer(doc)]: the constructor takes [positionDeco] from a
    fresh [makeSliceDecorationTypes()] and subscribes the object. *)
Definition newPositionSlicer (d : DocId) : State World nat :=
  fun w =>
    let n := decoTypes (host w) in
    let s := {| doc := d; offsets := []; sliceDecos := None;
                positionDeco := n |} in
    (length (slicers w),
     set_slicers (set_host w (set_decoTypes (host w) (S n)))
       (slicers w ++ [s])).

Definition suspend (t : Pending) : State World unit :=
  fun w => (tt, set_pending w (pending w ++ [t])).

(** The end of [addPositions], from [if(flowrSlicer.offsets.length === 0)];
    the result is the returned [PositionSlicer | undefined]. *)
Definition addPositions_end (flowrSlicer : nat) (d : DocId)
  : State World (option nat) :=
  this <- call flowrSlicer this_ ;;
  match this with
  | Some this =>
      if (Z.of_nat (length (offsets this)) =? 0) then
        (* Dispose the slicer if no positions are sliced (anymore) *)
        call flowrSlicer dispose ;;;
        (fun w => (tt, set_docSlicers w (delete d (docSlicers w)))) ;;;
        ret None
      else
        (* If the slicer is active, make sure there are no selection-slice
           decorations in its editors *)
        call flowrSlicer (emit (ClearSelectionSliceDecos d)) ;;;
        ret (Some flowrSlicer)
  | None => ret None
  end.

(** [addPositions(positions, doc)], up to its [await] or, when nothing was
    toggled, to its end.  The result is [None] while the call is suspended,
    and [Some r] when it has returned [r]. *)
Definition addPositions (positions : list Position) (d : DocId)
  : State World (option (option nat)) :=
  (* Get or create a slicer for the document *)
  w <- get ;;
  flowrSlicer <- match docSlicers w !! d with
                 | Some ref => ret ref
                 | None => newPositionSlicer d
                 end ;;
  (match docSlicers w !! d with
   | Some _ => ret tt
   | None => fun w => (tt, set_docSlicers w (<[d := flowrSlicer]> (docSlicers w)))
   end) ;;;
  (* Try to toggle the indicated positions *)
  r <- call flowrSlicer (togglePositions_call positions) ;;
  match r with
  | Some true =>
      (* Update the output if any positions were toggled *)
      call flowrSlicer updateOutput_begin ;;;
      suspend (mkPending flowrSlicer AtGetFlowrSession (InAddPositions d)) ;;;
      ret None
  | _ =>
      r <- addPositions_end flowrSlicer d ;;
      ret (Some r)
  end.

(** The subscribers of [onDidChangeTextDocument] run in turn, each up to
    its first [await]. *)
Fixpoint notify (e : TextDocumentChangeEvent) (refs : list nat)
  : State World unit :=
  match refs with
  | [] => ret tt
  | ref :: rest =>
      r <- call ref (onDocChange e) ;;
      match r with
      | Some true => suspend (mkPending ref AtGetFlowrSession InOnDocChange)
      | _ => ret tt
      end ;;;
      notify e rest
  end.

(** The host applies an edit: the document [document e] now has the content
    [content], and the event goes to every subscriber. *)
Definition didChangeTextDocument (content : TextDocument)
    (e : TextDocumentChangeEvent) : State World unit :=
  w <- get ;;
  let ds := fun i => if Pos.eqb i (document e) then content
                     else documents (host w) i in
  put (set_host w (set_documents (host w) ds)) ;;;
  notify e (seq 0 (length (slicers w))).

(** What an awaited promise is settled with. *)
Inductive Settled :=
| SessionReady
| SliceAnswer (code : string) (sliceElements : list SliceElement).

(** After [updateSlices] has returned [code]: the end of [updateOutput],
    then the rest of the caller. *)
Definition finish (t : Pending) (code : option string) : State World unit :=
  call (pending_this t) (updateOutput_end code) ;;;
  match pending_caller t with
  | InAddPositions d => addPositions_end (pending_this t) d ;;; ret tt
  | InOnDocChange => ret tt
  end.

Definition remove_pending (i : nat) : State World unit :=
  fun w => (tt, set_pending w (delete i (pending w))).

(** The promise awaited by the [i]-th suspended call is settled with [v],
    and the call goes on to its next [await] or to its end. *)
Definition resume (i : nat) (v : Settled) : State World unit :=
  w <- get ;;
  match pending w !! i with
  | None => ret tt
  | Some t =>
      match pending_await t, v with
      | AtGetFlowrSession, SessionReady =>
          o <- call (pending_this t) updateSlices_session ;;
          match o with
          | Some Awaiting =>
              let t' := mkPending (pending_this t) AtRetrieveSlice
                          (pending_caller t) in
              fun w => (tt, set_pending w (<[i := t']> (pending w)))
          | Some (Returned code) => remove_pending i ;;; finish t code
          | None => remove_pending i
          end
      | AtRetrieveSlice, SliceAnswer code sliceElements =>
          o <- call (pending_this t) (updateSlices_answer code sliceElements) ;;
          remove_pending i ;;;
          match o with
          | Some (Returned code) => finish t code
          | _ => ret tt
          end
      | _, _ => ret tt
      end
  end.

(** The state a step leaves. *)
Definition exec {S A} (m : State S A) (s : S) : S := snd (m s).

(** ** The session registry *)

(** The two session classes. *)
Inductive SessionKind := FlowrInternalSession | FlowrServerSession.

(** Modelled from the spec: the classes [FlowrInternalSession] and
    [FlowrServerSession] of [./flowr/] are not among the sources.  The
    registry constructs a session, calls [destroy()] and [initialize()] on
    it and tests its class.  By section 4.3, [destroy()] terminates the
    subprocess or closes the socket and may be called on a session that is
    terminated already.  A session object is its class and the number of
    [destroy()] calls it has received. *)
Record Session := mkSession { kind : SessionKind; destroy_calls : nat }.

(** Modelled from the spec: a session is live from its construction to its
    first [destroy()]. *)
Definition live (s : Session) : bool := Nat.eqb (destroy_calls s) 0.

(** The module variable [flowrSession] ([None] is [undefined]) and every
    session object constructed so far. *)
Record Registry := mkRegistry {
  sessions : list Session;
  flowrSession : option nat
}.

(** The state when the module is loaded. *)
Definition no_session : Registry :=
  {| sessions := []; flowrSession := None |}.

(** [flowrSession?.destroy()] *)
Definition destroy_if_present (r : Registry) : Registry :=
  match flowrSession r with
  | Some ref =>
      {| sessions :=
           alter (fun s => mkSession (kind s) (S (destroy_calls s))) ref
             (sessions r);
         flowrSession := flowrSession r |}
  | None => r
  end.

(** [flowrSession = new K(outputChannel)] *)
Definition assign_new (k : SessionKind) (r : Registry) : Registry :=
  {| sessions := sessions r ++ [mkSession k 0];
     flowrSession := Some (length (sessions r)) |}.

(** The operations on the registry. *)
Inductive Op := EstablishInternal | EstablishServer | DestroySession.

(** [src/src/extension.ts], first document. *)
Module Extension.

(** [establishInternalSession()]; [updateServerStatus()] only reads the
    registry. *)
Definition establishInternalSession (r : Registry) : Registry :=
  let r := destroy_if_present r in
  assign_new FlowrInternalSession r.

(** [establishServerSession()] *)
Definition establishServerSession (r : Registry) : Registry :=
  let r := destroy_if_present r in
  assign_new FlowrServerSession r.

(** This revision has no [destroySession]. *)
Definition step (r : Registry) (op : Op) : Registry :=
  match op with
  | EstablishInternal => establishInternalSession r
  | EstablishServer => establishServerSession r
  | DestroySession => r
  end.

End Extension.

(** [src/unnamed/part_000], the later revision of [extension.ts]. *)
Module Part000.

(** [destroySession()] *)
Definition destroySession (r : Registry) : Registry :=
  let r := destroy_if_present r in
  {| sessions := sessions r; flowrSession := None |}.

(** [establishInternalSession()], up to [await flowrSession.initialize()]. *)
Definition establishInternalSession (r : Registry) : Registry :=
  let r := destroySession r in
  assign_new FlowrInternalSession r.

(** [establishServerSession()] *)
Definition establishServerSession (r : Registry) : Registry :=
  let r := destroySession r in
  assign_new FlowrServerSession r.

Definition step (r : Registry) (op : Op) : Registry :=
  match op with
  | EstablishInternal => establishInternalSession r
  | EstablishServer => establishServerSession r
  | DestroySession => destroySession r
  end.

End Part000.

(** Every live session is the one [flowrSession] refers to, no session
    has received [destroy()] twice, and [flowrSession] refers to a live
    session when it refers to one. *)
Definition single_session (r : Registry) : Prop :=
  (forall (i : nat) (s : Session),
     sessions r !! i = Some s ->
     (destroy_calls s <= 1)%nat /\
     (live s = true -> flowrSession r = Some i)) /\
  (forall i : nat,
     flowrSession r = Some i ->
     exists s, sessions r !! i = Some s /\ live s = true).

(** No session of the list is live, and each has received [destroy()]
    once. *)
Definition all_destroyed (l : list Session) : Prop :=
  forall (i : nat) (s : Session),
    l !! i = Some s -> destroy_calls s = 1%nat.

(** ** What is rendered *)

Definition Uri_eqb (u v : Uri) : bool :=
  String.eqb (authority u) (authority v) && String.eqb (path u) (path v).

(** The content the provider holds for [u] after an effect. *)
Definition render (u : Uri) (current : option (option string)) (e : Effect)
  : option (option string) :=
  match e with
  | UpdateContents v content => if Uri_eqb v u then Some content else current
  | _ => current
  end.

(** The content the provider holds for [u] after the effects of a log:
    that of the last [updateContents(u, _)], if there was one. *)
Definition rendered (u : Uri) (l : list Effect) : option (option string) :=
  fold_left (render u) l None.

(** The disposal [this.sliceDecos?.dispose()] as a list of effects. *)
Definition disposal (s : PositionSlicer) : list Effect :=
  match sliceDecos s with
  | Some sd => [DisposeSliceDecos sd]
  | None => []
  end.

(** ** The pipeline of section 4.1 of the specification

    This definition follows the specification, not the code: an offset goes
    through [shiftOffset] once per edit, in order, and the first
    [invalidated] ends the pipeline. *)
Fixpoint applyEdits_spec (offset : Z)
    (edits : list TextDocumentContentChangeEvent) : option Z :=
  match edits with
  | [] => Some offset
  | cc :: rest =>
      match shiftOffset offset cc with
      | Some offset1 => applyEdits_spec offset1 rest
      | None => None
      end
  end.

(** No offset on the way through the pipeline is [0] after an edit. *)
Fixpoint never_zero (offset : Z)
    (edits : list TextDocumentContentChangeEvent) : bool :=
  match edits with
  | [] => true
  | cc :: rest =>
      match shiftOffset offset cc with
      | Some offset1 => negb (offset1 =? 0) && never_zero offset1 rest
      | None => true
      end
  end.

(** ** [createSliceDecorations] ([src/src/extension.ts], first document) *)

(** The loop [for(let i = 0; i < document.lineCount; i++)] on the texts
    [document.lineAt(i).text] of the lines from [i] on, pushing onto
    [ret]. *)
Fixpoint decorateLines (sliceLines : gset Z) (texts : list string) (i : Z)
    (ret : list Range) : list Range :=
  match texts with
  | [] => ret
  | t :: rest =>
      decorateLines sliceLines rest (i + 1)
        (if bool_decide (i ∈ sliceLines) then ret
         else ret ++ [mkRange (mkPosition i 0)
                        (mkPosition i (Z.of_nat (String.length t)))])
  end.

(** [createSliceDecorations(document, sliceElements)], on the texts of the
    lines of [document]; a [vscode.DecorationOptions] is its [range]. *)
Definition createSliceDecorations (texts : list string)
    (sliceElements : list SliceElement) : list Range :=
  (* create a set to make finding matching lines *)
  let sliceLines : gset Z :=
    list_to_set (map (fun s => line (start (location s)) - 1) sliceElements) in
  decorateLines sliceLines texts 0 [].

(** ** The functions around [docSlicers] that read the active editor

    [vscode.window.activeTextEditor] is an argument: [None] is
    [undefined]. *)

(** [getActivePositionSlicer()] *)
Definition getActivePositionSlicer (activeTextEditor : option TextEditor)
  : State World (option nat) :=
  match activeTextEditor with
  | None => ret None
  | Some editor =>
      let d := editor_document editor in
      w <- get ;;
      ret (docSlicers w !! d)
  end.

(** [disposeActivePositionSlicer()]; a reference to no object, which
    [docSlicers] never holds, is treated as no slicer. *)
Definition disposeActivePositionSlicer (activeTextEditor : option TextEditor)
  : State World bool :=
  slicer <- getActivePositionSlicer activeTextEditor ;;
  match slicer with
  | None => ret false
  | Some slicer =>
      this <- call slicer this_ ;;
      match this with
      | Some this =>
          call slicer dispose ;;;
          (fun w => (tt, set_docSlicers w (delete (doc this) (docSlicers w)))) ;;;
          ret true
      | None => ret false
      end
  end.

(** [addCurrentPositions()]: the active editor comes with its
    [selections]. *)
Definition addCurrentPositions
    (activeTextEditor : option (TextEditor * list Range))
  : State World unit :=
  match activeTextEditor with
  | None => ret tt
  | Some (editor, selections) =>
      let positions := map (fun sel => start sel) selections in
      addPositions positions (editor_document editor) ;;;
      ret tt
  end.

(** ** What the slicer does in the course of time *)

(** The module state after loading. *)
Definition initial (h : Host) : World :=
  {| host := h; slicers := []; docSlicers := ∅; pending := [] |}.

(** What happens to the module: a call of [addPositions] or of
    [addCurrentPositions], an edit of a document, the settling of an awaited
    promise, a call of [disposeActivePositionSlicer]. *)
Inductive Step :=
| AddPositions (positions : list Position) (d : DocId)
| AddCurrentPositions (activeTextEditor : option (TextEditor * list Range))
| DidChange (content : TextDocument) (e : TextDocumentChangeEvent)
| Resume (i : nat) (v : Settled)
| DisposeActive (activeTextEditor : option TextEditor).

Definition step (w : World) (s : Step) : World :=
  match s with
  | AddPositions positions d => exec (addPositions positions d) w
  | AddCurrentPositions editor => exec (addCurrentPositions editor) w
  | DidChange content e => exec (didChangeTextDocument content e) w
  | Resume i v => exec (resume i v) w
  | DisposeActive editor => exec (disposeActivePositionSlicer editor) w
  end.

(** The documents of the slicer objects, by index. *)
Definition docs_of (w : World) : list DocId := map doc (slicers w).

(** [docSlicers] maps a document to a slicer of that document. *)
Definition registered (w : World) : Prop :=
  forall (d : DocId) (ref : nat),
    docSlicers w !! d = Some ref -> docs_of w !! ref = Some d.

(** No slicer tracks a negative offset. *)
Definition offsets_nonneg (w : World) : Prop :=
  Forall (fun s => Forall (fun o => 0 <= o) (offsets s)) (slicers w).

(** ** The commands on the session registry *)

(** [flowrSession instanceof FlowrServerSession] *)
Definition is_server_session (r : Registry) : bool :=
  match flowrSession r with
  | Some ref =>
      match sessions r !! ref with
      | Some s =>
          match kind s with
          | FlowrServerSession => true
          | FlowrInternalSession => false
          end
      | None => false
      end
  | None => false
  end.

(** The commands [vscode-flowr.session.connect],
    [vscode-flowr.session.disconnect] and [vscode-flowr.dataflow], and the
    disposal of the extension. *)
Inductive Command :=
| Connect
| Disconnect
| Dataflow (activeEditor : bool)
| Shutdown.

(** [activate] of [src/src/extension.ts], first document. *)
Module ExtensionActivate.

(** The handler of [vscode-flowr.session.disconnect]. *)
Definition disconnect (r : Registry) : Registry :=
  if is_server_session r then Extension.establishInternalSession r else r.

(** The [vscode.Disposable] pushed by [activate], and the [SIGINT]
    handler: [flowrSession.destroy()], which throws without a session
    ([None]). *)
Definition shutdown (r : Registry) : option Registry :=
  match flowrSession r with
  | Some _ => Some (destroy_if_present r)
  | None => None
  end.

(** The end of [activate]; [autoConnect] is the setting
    [server.autoConnect]. *)
Definition activate (autoConnect : bool) (r : Registry) : Registry :=
  if autoConnect then Extension.establishServerSession r
  else Extension.establishInternalSession r.

(** This revision has no [vscode-flowr.dataflow]; after [Shutdown] the
    registry is as the handler leaves it, and unchanged where it throws. *)
Definition run (r : Registry) (c : Command) : Registry :=
  match c with
  | Connect => Extension.establishServerSession r
  | Disconnect => disconnect r
  | Dataflow _ => r
  | Shutdown => default r (shutdown r)
  end.

End ExtensionActivate.

(** [activate] of [src/unnamed/part_000] and the command of
    [src/src/diagram.ts]. *)
Module Part000Activate.

(** The handler of [vscode-flowr.session.disconnect]. *)
Definition disconnect (r : Registry) : Registry :=
  if is_server_session r then Part000.destroySession r else r.

(** The end of [activate]. *)
Definition activate (autoConnect : bool) (r : Registry) : Registry :=
  if autoConnect then Part000.establishServerSession r else r.

(** The handler of [vscode-flowr.dataflow] in [registerDiagramCommands],
    up to [await flowrSession?.retrieveDataflowMermaid(activeEditor)];
    [activeEditor] tells whether there is an active editor. *)
Definition dataflow (activeEditor : bool) (r : Registry) : Registry :=
  if activeEditor then
    match flowrSession r with
    | None => Part000.establishInternalSession r
    | Some _ => r
    end
  else r.

Definition run (r : Registry) (c : Command) : Registry :=
  match c with
  | Connect => Part000.establishServerSession r
  | Disconnect => disconnect r
  | Dataflow activeEditor => dataflow activeEditor r
  | Shutdown => Part000.destroySession r
  end.

End Part000Activate.

(** ** The status bar item of [src/src/extension.ts], first document *)

(** The item [serverStatus]: whether it is shown, and its text. *)
Record StatusBarItem := mkStatus { shown : bool; status_text : string }.

(** [updateServerStatus()]; [state] gives [flowrSession.state], a field of
    the session classes, at the time of the call. *)
Definition updateServerStatus (state : nat -> string) (r : Registry)
    (serverStatus : StatusBarItem) : StatusBarItem :=
  if is_server_session r then
    match flowrSession r with
    | Some ref =>
        {| shown := true;
           status_text := ("$(server) flowR " ++ state ref)%string |}
    | None => serverStatus
    end
  else
    {| shown := false; status_text := status_text serverStatus |}.

(** What runs while the extension of this revision is active: the
    commands [vscode-flowr.session.connect] and
    [vscode-flowr.session.disconnect], and the [SIGINT] handler. *)
Inductive ActiveCommand :=
| ActiveConnect
| ActiveDisconnect
| Sigint.

(** The same on the registry alone. *)
Definition to_command (c : ActiveCommand) : Command :=
  match c with
  | ActiveConnect => Connect
  | ActiveDisconnect => Disconnect
  | Sigint => Shutdown
  end.

(** The active commands on the registry and the item:
    [establishInternalSession] and [establishServerSession] end with
    [updateServerStatus()]; the [SIGINT] handler is
    [flowrSession.destroy()] and nothing else. *)
Definition run_with_status (state : nat -> string)
    (st : Registry * StatusBarItem) (c : ActiveCommand)
  : Registry * StatusBarItem :=
  let '(r, serverStatus) := st in
  match c with
  | ActiveConnect =>
      let r := Extension.establishServerSession r in
      (r, updateServerStatus state r serverStatus)
  | ActiveDisconnect =>
      if is_server_session r then
        let r := Extension.establishInternalSession r in
        (r, updateServerStatus state r serverStatus)
      else (r, serverStatus)
  | Sigint => (default r (ExtensionActivate.shutdown r), serverStatus)
  end.

(** The disposal of [context.subscriptions], onto which [activate] has
    pushed the commands, the item [serverStatus] and the [vscode.Disposable]
    with [flowrSession.destroy()]: the disposed item is hidden, as the
    host's [dispose()] hides it, and the session is destroyed; the commands
    are gone afterwards. *)
Definition dispose_subscriptions (st : Registry * StatusBarItem)
  : Registry * StatusBarItem :=
  let '(r, serverStatus) := st in
  (default r (ExtensionActivate.shutdown r),
   {| shown := false; status_text := status_text serverStatus |}).

(** [activate]: the item is created, [updateServerStatus()] is called
    before there is a session, and a session is established. *)
Definition activate_with_status (state : nat -> string) (autoConnect : bool)
  : Registry * StatusBarItem :=
  let serverStatus := {| shown := false; status_text := "" |} in
  let serverStatus := updateServerStatus state no_session serverStatus in
  let r := ExtensionActivate.activate autoConnect no_session in
  (r, updateServerStatus state r serverStatus).

(** Every live session is the one [flowrSession] refers to. *)
Definition live_is_current (r : Registry) : Prop :=
  forall (j : nat) (s : Session),
    sessions r !! j = Some s -> live s = true -> flowrSession r = Some j.

(** [flowrSession] refers to a session object. *)
Definition has_session (r : Registry) : Prop :=
  exists (i : nat) (s : Session),
    flowrSession r = Some i /\ sessions r !! i = Some s.

(** ** Notions for the properties of the methods and of the module *)

(** A method that keeps the document, the tracked offsets and the position
    decoration of [this], and the documents and editors of the host. *)
Definition keeps {A} (m : Method A) : Prop :=
  forall st : PositionSlicer * Host,
    let st' := snd (m st) in
    doc (fst st') = doc (fst st) /\
    offsets (fst st') = offsets (fst st) /\
    positionDeco (fst st') = positionDeco (fst st) /\
    documents (snd st') = documents (snd st) /\
    visibleTextEditors (snd st') = visibleTextEditors (snd st).

(** A method that keeps the document of [this] and tracks no negative
    offset unless one was tracked. *)
Definition sound {A} (m : Method A) : Prop :=
  forall st : PositionSlicer * Host,
    doc (fst (snd (m st))) = doc (fst st) /\
    (Forall (fun o => 0 <= o) (offsets (fst st)) ->
     Forall (fun o => 0 <= o) (offsets (fst (snd (m st))))).

(** The editors that show the document [d]. *)
Definition editors_of (d : DocId) (editors : list TextEditor)
  : list TextEditor :=
  List.filter (fun editor => Pos.eqb (editor_document editor) d) editors.

(** What [this.sliceDecos ||= makeSliceDecorationTypes()] leaves in
    [this.sliceDecos]. *)
Definition ensured (this : PositionSlicer) (h : Host) : nat :=
  default (decoTypes h) (sliceDecos this).

(** The invariant: [docSlicers] maps a document to a slicer of that
    document, and no slicer tracks a negative offset. *)
Definition invariant (w : World) : Prop := registered w /\ offsets_nonneg w.

(** A step of the module that keeps the invariant. *)
Definition preserves {A} (m : State World A) : Prop :=
  forall w, invariant w -> invariant (snd (m w)).

(** The range of the whole line [i] with the text [t]. *)
Definition whole_line (i : Z) (t : string) : Range :=
  mkRange (mkPosition i 0) (mkPosition i (Z.of_nat (String.length t))).

(** The ranges are pushed by ascending line. *)
Definition ascending (l : list Range) : Prop :=
  forall (a b : nat) (r1 r2 : Range),
    l !! a = Some r1 -> l !! b = Some r2 -> (a < b)%nat ->
    line (start r1) < line (start r2).

(** ** Documents and states for the examples *)

(** The line [a <- 1; b <- a + 1; print(b)]. *)
Definition three_statements : TextDocument :=
  lineDocument "/work/a.R" 28
    [(0, 1); (5, 6); (8, 9); (13, 14); (17, 18); (20, 25); (26, 27)].

(** The line [ ab], which the deletion of the blank at offset 2 leaves of
    the line [ a b]. *)
Definition joined_words : TextDocument :=
  lineDocument "/work/a.R" 3 [(1, 3)].

(** The line [x b], which the deletion of [[0,3)] and the insertion of
    [x ] at the start leave of the line [aa b]. *)
Definition replaced_prefix : TextDocument :=
  lineDocument "/work/a.R" 3 [(0, 1); (2, 3)].

(** The line [  <- 1], which the deletion of [b] at offset 1 leaves of the
    line [ b <- 1]. *)
Definition deleted_word : TextDocument :=
  lineDocument "/work/a.R" 6 [(5, 6)].

(** The line [ b <- 1]. *)
Definition one_assignment : TextDocument :=
  lineDocument "/work/a.R" 7 [(1, 2); (6, 7)].

(** A host with the document [1] shown in one editor, and nothing logged. *)
Definition host_showing (d : TextDocument) : Host :=
  {| documents := fun _ => d;
     visibleTextEditors := [mkEditor 0 1%positive];
     decoTypes := 0%nat;
     log := [] |}.

(** The module state after loading, in such a host. *)
Definition loaded (d : TextDocument) : World :=
  {| host := host_showing d; slicers := []; docSlicers := ∅; pending := [] |}.


(** The [b] of [ b <- 1] has been added, and its slice has come and is
    shown. *)
Definition tracking_b : World :=
  let w := loaded one_assignment in
  let w := exec (addPositions [mkPosition 0 1] 1%positive) w in
  let w := exec (resume 0 SessionReady) w in
  exec (resume 0 (SliceAnswer "b <- 1"
                    [mkSliceElement "0"
                       (mkRange (mkPosition 1 1) (mkPosition 1 7))])) w.

(** Then the [b] is deleted, and the update that follows the change has
    run to its end. *)
Definition b_deleted : World :=
  let e := mkEvent 1 [mkChange 1 1 ""] in
  let w := exec (didChangeTextDocument deleted_word e) tracking_b in
  exec (resume 0 SessionReady) w.

(** On [a <- 1; b <- a + 1; print(b)], the [b] at offset 8 is added and the
    slice for it requested; before the answer comes, the [print] at offset
    20 is added and the slice for both requested.  The call suspended first
    awaits the answer to the first request, the call suspended second the
    answer to the second. *)
Definition two_requests : World :=
  let w := loaded three_statements in
  let w := exec (addPositions [mkPosition 0 8] 1%positive) w in
  let w := exec (resume 0 SessionReady) w in
  let w := exec (addPositions [mkPosition 0 20] 1%positive) w in
  exec (resume 1 SessionReady) w.

(** The answer to the first request, the slice for [b]. *)
Definition answer1 : Settled :=
  SliceAnswer "a <- 1; b <- a + 1"
    [mkSliceElement "0" (mkRange (mkPosition 1 1) (mkPosition 1 7));
     mkSliceElement "3" (mkRange (mkPosition 1 9) (mkPosition 1 19))].

(** The answer to the second request, the slice for [b] and [print]. *)
Definition answer2 : Settled :=
  SliceAnswer "a <- 1; b <- a + 1; print(b)"
    [mkSliceElement "0" (mkRange (mkPosition 1 1) (mkPosition 1 7));
     mkSliceElement "3" (mkRange (mkPosition 1 9) (mkPosition 1 19));
     mkSliceElement "8" (mkRange (mkPosition 1 21) (mkPosition 1 28))].

(** The reconstruction of the document of the examples. *)
Definition slice_uri : Uri := makeUri three_statements.

(** The slicer that tracks the [b] of [ b <- 1], disposed of by
    [disposeActivePositionSlicer]. *)
Definition b_disposed : World :=
  exec (disposeActivePositionSlicer (Some (mkEditor 0 1))) tracking_b.

(** The [b] of [ b <- 1] has been added and the slice for it requested;
    the answer is awaited. *)
Definition b_requested : World :=
  let w := loaded one_assignment in
  let w := exec (addPositions [mkPosition 0 1] 1%positive) w in
  exec (resume 0 SessionReady) w.

(** The slice for the [b] is shown, and the [b] has just been deleted: the
    update that the change starts awaits the session. *)
Definition b_emptied : World :=
  exec (didChangeTextDocument deleted_word (mkEvent 1 [mkChange 1 1 ""]))
    tracking_b.

(** * Properties *)

(** ** [shiftOffset] *)

(** C2. For every offset and every edit that replaces [rangeLength >= 0]
    characters from [rangeOffset] by [text]: an edit that starts strictly
    behind the offset leaves the offset as it is; an offset in
    [[rangeOffset, rangeOffset + rangeLength)], the start of a non-empty
    range included, is invalidated; and an offset at or behind the end of
    the range, the end itself included, becomes
    [offset + (text.length - rangeLength)], never invalidated. *)
Theorem shiftOffset_cases (offset : Z) (cc : TextDocumentContentChangeEvent) :
  0 <= rangeLength cc ->
  (rangeOffset cc > offset -> shiftOffset offset cc = Some offset) /\
  (rangeOffset cc <= offset < rangeOffset cc + rangeLength cc ->
   shiftOffset offset cc = None) /\
  (rangeOffset cc + rangeLength cc <= offset ->
   shiftOffset offset cc = Some (offset + (text_length cc - rangeLength cc))).
Proof.
  intros Hlen. unfold shiftOffset.
  destruct (Z.gtb_spec (rangeOffset cc) offset) as [Hgt | Hle];
    destruct (Z.gtb_spec (rangeLength cc + rangeOffset cc) offset)
      as [Hin | Hout];
    repeat split; intros; try reflexivity; lia.
Qed.

(** The scenarios of section 8: an insertion of seven characters at the
    start moves the offset 10 to 17; a deletion of [[5,12)] invalidates the
    offset 8, as it does the offset 5, and moves the offset 12 to 5. *)
Lemma shiftOffset_cases_witness :
  shiftOffset 10 (mkChange 0 0 "x <- 2
") = Some 17 /\
  shiftOffset 8 (mkChange 5 7 "") = None /\
  shiftOffset 5 (mkChange 5 7 "") = None /\
  shiftOffset 12 (mkChange 5 7 "") = Some 5 /\
  shiftOffset 3 (mkChange 5 7 "") = Some 3.
Proof.
  split; [| split; [| split; [| split]]].
  - apply (shiftOffset_cases 10 (mkChange 0 0 "x <- 2
")); simpl; lia.
  - apply (shiftOffset_cases 8 (mkChange 5 7 "")); simpl; lia.
  - apply (shiftOffset_cases 5 (mkChange 5 7 "")); simpl; lia.
  - apply (shiftOffset_cases 12 (mkChange 5 7 "")); simpl; lia.
  - apply (shiftOffset_cases 3 (mkChange 5 7 "")); simpl; lia.
Defined.

(** [shiftOffset] gives [undefined] exactly for an offset inside the range. *)
Lemma shiftOffset_None (offset : Z) (cc : TextDocumentContentChangeEvent) :
  shiftOffset offset cc = None <->
  rangeOffset cc <= offset < rangeOffset cc + rangeLength cc.
Proof.
  unfold shiftOffset.
  destruct (Z.gtb_spec (rangeOffset cc) offset) as [Hgt | Hle];
    destruct (Z.gtb_spec (rangeLength cc + rangeOffset cc) offset)
      as [Hin | Hout];
    split; intros H; try discriminate; try reflexivity; lia.
Qed.

(** ** The remapping of [onDocChange] *)

(** The inner loop follows the pipeline of the specification as long as no
    offset on the way is [0]: it ends with the pipeline's offset, or with
    [-1] when the pipeline invalidates. *)
Lemma shiftThrough_applyEdits (offset : Z)
    (edits : list TextDocumentContentChangeEvent) :
  never_zero offset edits = true ->
  shiftThrough offset edits = default (-1) (applyEdits_spec offset edits).
Proof.
  revert offset.
  induction edits as [| cc rest IH]; intros offset Hz; simpl in *.
  - reflexivity.
  - destruct (shiftOffset offset cc) as [o1 |]; simpl in *.
    + apply andb_true_iff in Hz as [Hnz Hrest].
      apply negb_true_iff in Hnz. rewrite Hnz. now apply IH.
    + reflexivity.
Qed.

(** An offset that is [0] after an edit leaves the inner loop as [-1],
    whatever edits follow. *)
Lemma shiftThrough_zero (offset : Z) (cc : TextDocumentContentChangeEvent)
    (rest : list TextDocumentContentChangeEvent) :
  shiftOffset offset cc = Some 0 ->
  shiftThrough offset (cc :: rest) = -1.
Proof. intros H. simpl. now rewrite H. Qed.

(** The outer loop as a map and a filter. *)
Lemma remapOffsets_map (d : TextDocument)
    (edits : list TextDocumentContentChangeEvent) (this_offsets acc : list Z) :
  remapOffsets d edits this_offsets acc =
  acc ++ List.filter (fun o => o >=? 0)
           (map (fun o => normalizeOffset d (inl (shiftThrough o edits)))
              this_offsets).
Proof.
  revert acc.
  induction this_offsets as [| o rest IH]; intros acc; simpl.
  - now rewrite app_nil_r.
  - rewrite IH.
    destruct (normalizeOffset d (inl (shiftThrough o edits)) >=? 0).
    + now rewrite <- app_assoc.
    + reflexivity.
Qed.

(** ** [togglePositions] *)

Lemma indexOf_range (l : list Z) (x : Z) : -1 <= indexOf l x.
Proof.
  induction l as [| y l IH]; simpl; [lia |].
  destruct (y =? x); [lia |].
  destruct (Z.ltb_spec (indexOf l x) 0); lia.
Qed.

(** [indexOf] is negative exactly for an absent element. *)
Lemma indexOf_absent (l : list Z) (x : Z) :
  (indexOf l x <? 0) = true <-> ~ In x l.
Proof.
  induction l as [| y l IH]; simpl.
  - split; [tauto | reflexivity].
  - destruct (Z.eqb_spec y x) as [-> | Hne].
    + split; [discriminate | intros H; exfalso; apply H; now left].
    + destruct (indexOf l x <? 0) eqn:Hidx.
      * split; [| reflexivity]. intros _ [Heq | Hin]; [congruence |].
        now apply IH in Hin.
      * pose proof (indexOf_range l x) as Hr.
        apply Z.ltb_ge in Hidx.
        assert (Hf : (indexOf l x + 1 <? 0) = false) by (apply Z.ltb_ge; lia).
        rewrite Hf. split; [discriminate |].
        intros Hnot. exfalso.
        assert (Hin : ~ In x l) by tauto.
        apply IH in Hin. discriminate.
Qed.

Lemma includes_In (l : list Z) (x : Z) : includes l x = true <-> In x l.
Proof.
  unfold includes. rewrite existsb_exists. split.
  - intros (y & Hin & Heq). apply Z.eqb_eq in Heq. now subst.
  - intros Hin. exists x. split; [exact Hin | apply Z.eqb_refl].
Qed.

Lemma includes_false (l : list Z) (x : Z) : includes l x = false <-> ~ In x l.
Proof.
  rewrite <- includes_In. destruct (includes l x); split; congruence.
Qed.

(** The loop only appends: it leaves [this.offsets] as a prefix, and what
    it appends are the offsets that were not tracked, each once. *)
Lemma addUntracked_appends (offs acc : list Z) (b : bool) :
  exists added,
    fst (addUntracked offs acc b) = acc ++ added /\
    List.NoDup added /\
    (forall x, In x added <-> In x offs /\ ~ In x acc).
Proof.
  revert acc b.
  induction offs as [| o rest IH]; intros acc b; simpl.
  - exists []. rewrite app_nil_r. repeat split; try apply List.NoDup_nil; simpl; tauto.
  - destruct (indexOf acc o <? 0) eqn:Hidx.
    + apply indexOf_absent in Hidx.
      destruct (IH (acc ++ [o]) false) as (added & Heq & Hnd & Hin).
      exists (o :: added). rewrite Heq, <- app_assoc. split; [reflexivity |].
      split.
      * apply List.NoDup_cons; [| exact Hnd].
        intros Ho. apply Hin in Ho as [_ Hno]. apply Hno.
        apply in_or_app. right. now left.
      * intros x. simpl. rewrite Hin, in_app_iff. simpl.
        destruct (Z.eq_dec o x) as [-> | Hne]; [tauto |]. tauto.
    + assert (Hino : In o acc).
      { destruct (in_dec Z.eq_dec o acc) as [Hi | Hn]; [exact Hi |].
        apply indexOf_absent in Hn. congruence. }
      destruct (IH acc b) as (added & Heq & Hnd & Hin).
      exists added. split; [exact Heq |]. split; [exact Hnd |].
      intros x. rewrite Hin. split; [tauto |].
      intros [[-> | Hx] Hn]; tauto.
Qed.

(** [onlyRemove] stays [true] exactly when every offset is tracked. *)
Lemma addUntracked_flag (offs acc : list Z) (b : bool) :
  snd (addUntracked offs acc b) = b && forallb (includes acc) offs.
Proof.
  revert acc b.
  induction offs as [| o rest IH]; intros acc b; simpl.
  - now rewrite andb_true_r.
  - destruct (indexOf acc o <? 0) eqn:Hidx.
    + apply indexOf_absent, includes_false in Hidx. rewrite Hidx, IH.
      simpl. now rewrite andb_false_r.
    + assert (Hinc : includes acc o = true).
      { destruct (includes acc o) eqn:Hi; [reflexivity |].
        apply includes_false, indexOf_absent in Hi. congruence. }
      rewrite Hinc, IH. reflexivity.
Qed.

(** When every offset is tracked the loop changes nothing. *)
Lemma addUntracked_all_tracked (offs acc : list Z) (b : bool) :
  forallb (includes acc) offs = true ->
  addUntracked offs acc b = (acc, b).
Proof.
  revert b.
  induction offs as [| o rest IH]; intros b Hall; simpl in *.
  - reflexivity.
  - apply andb_true_iff in Hall as [Ho Hrest].
    destruct (indexOf acc o <? 0) eqn:Hidx.
    + apply indexOf_absent, includes_false in Hidx. congruence.
    + now apply IH.
Qed.

Lemma all_tracked_iff (offs acc : list Z) :
  forallb (includes acc) offs = true <-> (forall o, In o offs -> In o acc).
Proof.
  rewrite forallb_forall. split; intros H o Ho.
  - apply includes_In. now apply H.
  - apply includes_In. now apply H.
Qed.

(** [togglePositions] in full: nothing for positions that do not
    normalize; a removal when all the offsets are tracked; an addition
    otherwise. *)
Lemma togglePositions_unfold (d : TextDocument) (positions : list Position)
    (this : PositionSlicer) :
  let offs := normalizedOffsets d positions in
  togglePositions d positions this =
  match offs with
  | [] => (false, this)
  | _ :: _ =>
      if forallb (includes (offsets this)) offs
      then (true, set_offsets this
                    (List.filter (fun x => negb (includes offs x))
                       (offsets this)))
      else (true, set_offsets this
                    (fst (addUntracked offs (offsets this) true)))
  end.
Proof.
  intros offs. unfold togglePositions. fold offs.
  destruct offs as [| o rest] eqn:Hoffs; [reflexivity |].
  rewrite <- Hoffs.
  assert (Hlen : (Z.of_nat (length offs) =? 0) = false).
  { apply Z.eqb_neq. subst offs. rewrite Hoffs. simpl. lia. }
  subst offs. rewrite Hlen.
  destruct (addUntracked (normalizedOffsets d positions) (offsets this) true)
    as [acc flag] eqn:Hadd.
  pose proof (addUntracked_flag (normalizedOffsets d positions)
                (offsets this) true) as Hflag.
  rewrite Hadd in Hflag. simpl in Hflag. subst flag.
  destruct (forallb (includes (offsets this)) (normalizedOffsets d positions))
    eqn:Hall.
  - rewrite addUntracked_all_tracked in Hadd by exact Hall.
    inversion Hadd; subst. reflexivity.
  - reflexivity.
Qed.

(** Positions that do not normalize toggle nothing, and [false] is
    returned. *)
Lemma togglePositions_nothing (d : TextDocument) (positions : list Position)
    (this : PositionSlicer) :
  normalizedOffsets d positions = [] ->
  togglePositions d positions this = (false, this).
Proof.
  intros H. rewrite togglePositions_unfold. simpl. now rewrite H.
Qed.

(** The two cases of a call of [togglePositions] that toggles. *)
Lemma togglePositions_cases (d : TextDocument) (positions : list Position)
    (this : PositionSlicer) :
  normalizedOffsets d positions <> [] ->
  let offs := normalizedOffsets d positions in
  let r := togglePositions d positions this in
  ((forall o, In o offs -> In o (offsets this)) ->
   offsets (snd r) =
     List.filter (fun x => negb (includes offs x)) (offsets this) /\
   (forall x, In x (offsets (snd r)) <-> In x (offsets this) /\ ~ In x offs))
  /\
  (~ (forall o, In o offs -> In o (offsets this)) ->
   exists added,
     offsets (snd r) = offsets this ++ added /\
     List.NoDup added /\
     (forall x, In x added <-> In x offs /\ ~ In x (offsets this)))
  /\
  fst r = true /\
  ~ (forall x, In x (offsets (snd r)) <-> In x (offsets this)).
Proof.
  intros Hne offs r. subst r. rewrite togglePositions_unfold.
  subst offs. cbv zeta.
  generalize dependent (normalizedOffsets d positions). intros offs Hne.
  destruct offs as [| o0 rest]; [congruence |]. cbv beta iota.
  remember (o0 :: rest) as offs eqn:Hoffs.
  assert (Ho0 : In o0 offs) by (rewrite Hoffs; now left).
  destruct (forallb (includes (offsets this)) offs) eqn:Hall; simpl.
  - pose proof (proj1 (all_tracked_iff _ _) Hall) as Hall'.
    clear Hall. rename Hall' into Hall.
    assert (Hmem : forall x,
      In x (List.filter (fun x => negb (includes offs x)) (offsets this)) <->
      In x (offsets this) /\ ~ In x offs).
    { intros x. rewrite filter_In, negb_true_iff, includes_false. tauto. }
    split; [intros _; split; [reflexivity | exact Hmem] |].
    split; [intros Hnot; contradiction |].
    split; [reflexivity |].
    intros Hsame. specialize (Hall o0 Ho0).
    apply Hsame, Hmem in Hall. tauto.
  - assert (Hnall : ~ (forall o, In o offs -> In o (offsets this))).
    { intros H. pose proof (proj2 (all_tracked_iff _ _) H). congruence. }
    destruct (addUntracked_appends offs (offsets this) true)
      as (added & Heq & Hnd & Hin).
    split; [intros H; contradiction |].
    split; [intros _; exists added; now rewrite Heq |].
    split; [reflexivity |].
    intros Hsame. apply Hnall. intros o Ho.
    destruct (in_dec Z.eq_dec o (offsets this)) as [Hi | Hn]; [exact Hi |].
    apply Hsame. rewrite Heq. apply in_or_app. right. now apply Hin.
Qed.


(** C4. For positions that normalize to a non-empty list of offsets: when
    every offset is tracked, exactly these offsets are removed; otherwise
    the tracked offsets are all kept, in place, and the offsets not yet
    tracked are appended, each once, so that no call both adds and removes;
    and [true] is returned, the tracked set being another one than
    before. *)
Theorem togglePositions_bulk (d : TextDocument) (positions : list Position)
    (this : PositionSlicer) :
  normalizedOffsets d positions <> [] ->
  let offs := normalizedOffsets d positions in
  let r := togglePositions d positions this in
  ((forall o, In o offs -> In o (offsets this)) ->
   offsets (snd r) =
     List.filter (fun x => negb (includes offs x)) (offsets this) /\
   (forall x, In x (offsets (snd r)) <-> In x (offsets this) /\ ~ In x offs))
  /\
  (~ (forall o, In o offs -> In o (offsets this)) ->
   exists added,
     offsets (snd r) = offsets this ++ added /\
     List.NoDup added /\
     (forall x, In x added <-> In x offs /\ ~ In x (offsets this)))
  /\
  fst r = true /\
  ~ (forall x, In x (offsets (snd r)) <-> In x (offsets this)).
Proof. exact (togglePositions_cases d positions this). Qed.

(** On [a <- 1; b <- a + 1; print(b)] with the [a] at offset 0 tracked,
    toggling the [a] and the [b] at offset 8 adds the [b]; toggling both
    again removes both. *)
Lemma togglePositions_bulk_witness :
  togglePositions three_statements [mkPosition 0 0; mkPosition 0 8]
    (mkSlicer 1 [0] None 0) = (true, mkSlicer 1 [0; 8] None 0) /\
  offsets (snd (togglePositions three_statements
                  [mkPosition 0 0; mkPosition 0 8]
                  (mkSlicer 1 [0; 8; 13] None 0))) = [13].
Proof.
  split.
  - reflexivity.
  - apply (togglePositions_bulk three_statements
             [mkPosition 0 0; mkPosition 0 8] (mkSlicer 1 [0; 8; 13] None 0)).
    + vm_compute. discriminate.
    + vm_compute. intuition lia.
Defined.

(** C5, as stated, fails: with the [a] at offset 0 tracked, toggling the
    [a] and the [b] at offset 8 twice adds the [b] and then removes both;
    the set that held the offset 0 is empty afterwards. *)
Lemma toggle_twice_mixed_loses :
  let this := mkSlicer 1 [0] None 0 in
  let P := [mkPosition 0 0; mkPosition 0 8] in
  let twice := snd (togglePositions three_statements P
                      (snd (togglePositions three_statements P this))) in
  offsets twice = [] /\
  ~ (forall x, In x (offsets twice) <-> In x (offsets this)).
Proof.
  split; [reflexivity |].
  intros H. specialize (H 0). vm_compute in H. tauto.
Qed.

(** C5, amended. When the offsets that the positions normalize to are all
    tracked, or are all untracked (as are those of positions that do not
    normalize at all), two calls of [togglePositions] on these positions,
    with no edit in between, leave the set of tracked offsets as it was. *)
Theorem toggle_twice_restores (d : TextDocument) (positions : list Position)
    (this : PositionSlicer) :
  let offs := normalizedOffsets d positions in
  (forall o, In o offs -> In o (offsets this)) \/
  (forall o, In o offs -> ~ In o (offsets this)) ->
  let twice := snd (togglePositions d positions
                      (snd (togglePositions d positions this))) in
  forall x, In x (offsets twice) <-> In x (offsets this).
Proof.
  intros offs Hcase twice x. subst twice.
  assert (Hemp : offs = [] \/ exists o0, In o0 offs).
  { destruct offs as [| o0 rest]; [now left | right; exists o0; now left]. }
  destruct Hemp as [Hemp | [o0 Ho0]].
  { now rewrite !togglePositions_nothing by exact Hemp. }
  assert (Hne : normalizedOffsets d positions <> []).
  { fold offs. intros H. rewrite H in Ho0. contradiction. }
  pose proof (togglePositions_cases d positions this Hne) as H1.
  pose proof (togglePositions_cases d positions
                (snd (togglePositions d positions this)) Hne) as H2.
  cbv zeta in H1, H2. fold offs in H1, H2.
  set (once := snd (togglePositions d positions this)) in *.
  destruct H1 as (Hoff1 & Hon1 & _ & _).
  destruct H2 as (Hoff2 & Hon2 & _ & _).
  assert (Hdec : forall o, In o offs \/ ~ In o offs).
  { intros o. destruct (in_dec Z.eq_dec o offs); tauto. }
  destruct Hcase as [Hall | Hnone].
  - (* removed, then added again *)
    destruct (Hoff1 Hall) as [_ Hmem1].
    assert (Hnot : ~ (forall o, In o offs -> In o (offsets once))).
    { intros H. pose proof (H o0 Ho0) as Hx. apply Hmem1 in Hx. tauto. }
    destruct (Hon2 Hnot) as (added & Heq & _ & Hin).
    rewrite Heq, in_app_iff, Hin, Hmem1.
    destruct (Hdec x) as [Hx | Hx]; [| tauto].
    specialize (Hall x Hx). tauto.
  - (* added, then removed again *)
    assert (Hnot : ~ (forall o, In o offs -> In o (offsets this))).
    { intros H. apply (Hnone o0 Ho0). now apply H. }
    destruct (Hon1 Hnot) as (added & Heq & _ & Hin).
    assert (Hall : forall o, In o offs -> In o (offsets once)).
    { intros o Ho. rewrite Heq. apply in_or_app.
      destruct (in_dec Z.eq_dec o (offsets this)); [now left | right].
      now apply Hin. }
    destruct (Hoff2 Hall) as [_ Hmem2].
    rewrite Hmem2, Heq, in_app_iff, Hin.
    specialize (Hnone x). tauto.
Qed.

(** With the [a] at offset 0 tracked, toggling the untracked [b] at offset
    8 twice tracks the offset 0 alone again; toggling the tracked [a] twice
    does so, too. *)
Lemma toggle_twice_restores_witness :
  (forall x,
     In x (offsets (snd (togglePositions three_statements [mkPosition 0 8]
                      (snd (togglePositions three_statements [mkPosition 0 8]
                              (mkSlicer 1 [0] None 0)))))) <->
     In x [0]) /\
  (forall x,
     In x (offsets (snd (togglePositions three_statements [mkPosition 0 0]
                      (snd (togglePositions three_statements [mkPosition 0 0]
                              (mkSlicer 1 [0] None 0)))))) <->
     In x [0]).
Proof.
  split.
  - apply (toggle_twice_restores three_statements [mkPosition 0 8]
             (mkSlicer 1 [0] None 0)).
    right. vm_compute. intuition lia.
  - apply (toggle_twice_restores three_statements [mkPosition 0 0]
             (mkSlicer 1 [0] None 0)).
    left. vm_compute. intuition lia.
Defined.

(** [togglePositions] keeps a duplicate-free list duplicate-free. *)
Lemma togglePositions_NoDup (d : TextDocument) (positions : list Position)
    (this : PositionSlicer) :
  List.NoDup (offsets this) ->
  List.NoDup (offsets (snd (togglePositions d positions this))).
Proof.
  intros Hnd. rewrite togglePositions_unfold. cbv zeta.
  destruct (normalizedOffsets d positions) as [| o0 rest] eqn:Hoffs;
    [exact Hnd |].
  rewrite <- Hoffs.
  destruct (forallb (includes (offsets this)) (normalizedOffsets d positions));
    simpl.
  - now apply List.NoDup_filter.
  - destruct (addUntracked_appends (normalizedOffsets d positions)
                (offsets this) true) as (added & Heq & Hadd & Hin).
    rewrite Heq. apply List.NoDup_app; [exact Hnd | exact Hadd |].
    intros x Hx Hy. apply Hin in Hy. tauto.
Qed.

(** C6. The remapping of [onDocChange] pushes each surviving offset
    without looking for it in [newOffsets]: on the line [ a b] with both
    words tracked, at the offsets 1 and 3, the deletion of the blank
    between them moves the second offset to 2, inside the word [ab], and
    both offsets normalize to its start 1.  The list of tracked offsets,
    duplicate-free before, holds the offset 1 twice. *)
Theorem onDocChange_duplicates :
  let this := mkSlicer 1 [1; 3] None 0 in
  let e := mkEvent 1 [mkChange 2 1 ""] in
  let after := fst (snd (onDocChange e (this, host_showing joined_words))) in
  List.NoDup (offsets this) /\
  offsets after = [1; 1] /\
  ~ List.NoDup (offsets after).
Proof.
  cbv zeta. split; [| split].
  - repeat constructor; simpl; intuition lia.
  - reflexivity.
  - change (~ List.NoDup [1; 1]). intros H.
    inversion H as [| x l Hin _]; subst. apply Hin. now left.
Qed.

(** C3. The inner loop of [onDocChange] tests the shifted offset with
    [!offset1], which holds for [undefined] and for [0] alike.  On the line
    [aa b] with the [b] at offset 3 tracked, the deletion of [[0,3)]
    followed by the insertion of [x ] at the start takes the offset through
    0 to 2, the [b] of the line [x b], by the pipeline of the specification;
    the loop leaves at 0 with [-1], which the document takes for its start,
    and the tracked offset becomes 0, the [x]. *)
Theorem onDocChange_zero_offset :
  let this := mkSlicer 1 [3] None 0 in
  let edits := [mkChange 0 3 ""; mkChange 0 0 "x "] in
  let e := mkEvent 1 edits in
  let after := fst (snd (onDocChange e (this, host_showing replaced_prefix))) in
  applyEdits_spec 3 edits = Some 2 /\
  normalizeOffset replaced_prefix (inl 2) = 2 /\
  shiftThrough 3 edits = -1 /\
  offsets after = [0] /\
  ~ In 2 (offsets after).
Proof.
  cbv zeta. repeat split; try reflexivity.
  change (~ In 2 [0]). simpl. intuition lia.
Qed.

(** ** [onDocChange]: events that are not for the slicer *)

(** A method call that leaves [this] and the host as they are leaves the
    world as it is. *)
Lemma call_unchanged {A} (ref : nat) (m : Method A) (w : World)
    (this : PositionSlicer) (a : A) :
  slicers w !! ref = Some this ->
  m (this, host w) = (a, (this, host w)) ->
  call ref m w = (Some a, w).
Proof.
  intros Href Hm. unfold call. rewrite Href, Hm.
  unfold set_slicers, set_host. simpl.
  rewrite list_insert_id by exact Href. now destruct w.
Qed.

(** C10. An event for another document than the slicer's, or with an empty
    list of content changes, makes the handler return at once: the slicer,
    its tracked offsets among the rest, and the host with its log are what
    they were, and so is the world after the event has gone to the slicer:
    no call is suspended, no request or update of any kind is made. *)
Theorem onDocChange_frame (e : TextDocumentChangeEvent) (w : World)
    (ref : nat) (this : PositionSlicer) :
  slicers w !! ref = Some this ->
  document e <> doc this \/ contentChanges e = [] ->
  onDocChange e (this, host w) = (false, (this, host w)) /\
  exec (notify e [ref]) w = w.
Proof.
  intros Href Hcase.
  assert (Hm : onDocChange e (this, host w) = (false, (this, host w))).
  { unfold onDocChange, bind, this_. simpl.
    destruct (Pos.eqb_spec (document e) (doc this)) as [Heq | Hne]; simpl.
    - destruct Hcase as [Hd | Hc]; [contradiction |]. now rewrite Hc.
    - reflexivity. }
  split; [exact Hm |].
  unfold exec, notify, bind.
  rewrite (call_unchanged ref (onDocChange e) w this false Href Hm).
  reflexivity.
Qed.

(** The slicer that tracks the [b] of [ b <- 1] in the document [1] is
    left alone by a change of the document [2] and by an event for its own
    document that carries no change. *)
Lemma onDocChange_frame_witness :
  exec (notify (mkEvent 2 [mkChange 0 0 "x"]) [0%nat]) tracking_b
    = tracking_b /\
  exec (notify (mkEvent 1 []) [0%nat]) tracking_b = tracking_b.
Proof.
  split.
  - apply (onDocChange_frame (mkEvent 2 [mkChange 0 0 "x"]) tracking_b 0
             (mkSlicer 1 [1] (Some 1%nat) 0)).
    + vm_compute. reflexivity.
    + left. simpl. discriminate.
  - apply (onDocChange_frame (mkEvent 1 []) tracking_b 0
             (mkSlicer 1 [1] (Some 1%nat) 0)).
    + vm_compute. reflexivity.
    + right. reflexivity.
Defined.

(** ** [updateSlices] and [updateOutput]: nothing to slice *)

Lemma clearSliceDecos_run (this : PositionSlicer) (h : Host) :
  clearSliceDecos (this, h) =
  (tt, (set_sliceDecos this None, set_log h (log h ++ disposal this))).
Proof.
  unfold clearSliceDecos, disposal, bind, this_, put_this, emit, ret.
  destruct this as [dd os [sd |] pd]; simpl.
  - reflexivity.
  - rewrite app_nil_r. now destruct h.
Qed.

(** With no tracked offset, [updateSlices] disposes of the slice
    decorations it holds, forgets them and returns [undefined] without a
    [retrieveSlice]: the log grows by the disposal alone.  For an answer
    with no slice element it does the same.  And after [undefined] from
    [updateSlices], [updateOutput] gives the content provider the text
    [# No slice] for the document. *)
Lemma updateSlices_nothing (this : PositionSlicer) (h : Host) (code : string) :
  let idle := set_offsets this [] in
  updateSlices_session (idle, h) =
    (Returned None,
     (set_sliceDecos idle None, set_log h (log h ++ disposal this))) /\
  updateSlices_answer code [] (this, h) =
    (Returned None,
     (set_sliceDecos this None, set_log h (log h ++ disposal this))) /\
  updateOutput_end None (this, h) =
    (tt, (this,
          set_log h
            (log h ++ [UpdateContents (makeUri (documents h (doc this)))
                         (Some "# No slice"%string)]))).
Proof.
  cbv zeta. split; [| split].
  - unfold updateSlices_session, bind, this_, this_doc. simpl.
    rewrite clearSliceDecos_run. reflexivity.
  - unfold updateSlices_answer, bind. simpl.
    rewrite clearSliceDecos_run. reflexivity.
  - reflexivity.
Qed.

(** ** The slicers in [docSlicers] *)

(** The end of [addPositions] takes a slicer that tracks nothing out of
    [docSlicers]. *)
Lemma addPositions_end_removes (w : World) (ref : nat) (d : DocId)
    (this : PositionSlicer) :
  slicers w !! ref = Some this ->
  offsets this = [] ->
  docSlicers (exec (addPositions_end ref d) w) !! d = None.
Proof.
  intros Href Hemp. unfold exec, addPositions_end, bind.
  rewrite (call_unchanged ref this_ w this this Href eq_refl).
  rewrite Hemp. simpl.
  destruct (call ref dispose w) as [o w']. simpl.
  apply lookup_delete_eq.
Qed.

(** C7. [onDocChange] replaces [this.offsets] and updates the output, and
    that is all: it does not look whether an offset is left.  A slicer
    tracks the [b] of [ b <- 1]; the [b] is deleted, and the update the
    change starts runs to its end.  The slicer tracks nothing then, no call
    is suspended that could still remove it, its decoration has not been
    disposed of, and [docSlicers] still maps the document to it. *)
Theorem emptied_slicer_stays :
  docSlicers tracking_b !! 1%positive = Some 0%nat /\
  offsets <$> slicers tracking_b !! 0%nat = Some [1] /\
  docSlicers b_deleted !! 1%positive = Some 0%nat /\
  offsets <$> slicers b_deleted !! 0%nat = Some [] /\
  pending b_deleted = [] /\
  ~ In (DisposePositionDeco 0) (log (host b_deleted)).
Proof.
  repeat split; try reflexivity.
  vm_compute. intuition discriminate.
Qed.

(** ** Answers that arrive out of order *)

(** C1, as stated, fails.  Two requests are in flight for one document;
    the answer to the second comes first and is rendered, then the answer
    to the first comes and is rendered in its place: the reconstruction
    shown at the end is the slice for [b] alone, while [b] and [print] are
    tracked. *)
Lemma stale_answer_is_rendered :
  let w2 := exec (resume 1 answer2) two_requests in
  let w1 := exec (resume 0 answer1) w2 in
  offsets <$> slicers w1 !! 0%nat = Some [8; 20] /\
  rendered slice_uri (log (host w2)) =
    Some (Some "a <- 1; b <- a + 1; print(b)"%string) /\
  rendered slice_uri (log (host w1)) =
    Some (Some "a <- 1; b <- a + 1"%string) /\
  rendered slice_uri (log (host w1)) <> rendered slice_uri (log (host w2)).
Proof.
  cbv zeta. repeat split; try reflexivity.
  vm_compute. discriminate.
Qed.

Lemma string_length_append (s1 s2 : string) :
  String.length (s1 ++ s2) = (String.length s1 + String.length s2)%nat.
Proof. induction s1 as [| c s1 IH]; simpl; [reflexivity | now rewrite IH]. Qed.

(** The address that [dispose] clears is the address of no document's
    reconstruction. *)
Lemma dispose_uri_differs (d : TextDocument) :
  Uri_eqb (mkUri positionSlicerAuthority positionSlicerSuffix) (makeUri d)
  = false.
Proof.
  unfold Uri_eqb, makeUri. simpl authority. simpl path.
  apply andb_false_iff. right. apply String.eqb_neq. intros H.
  apply (f_equal String.length) in H.
  rewrite !string_length_append in H. simpl in H. lia.
Qed.

Lemma Uri_eqb_refl (u : Uri) : Uri_eqb u u = true.
Proof. unfold Uri_eqb. now rewrite !String.eqb_refl. Qed.

Lemma rendered_app (u : Uri) (l1 l2 : list Effect) :
  rendered u (l1 ++ l2) = fold_left (render u) l2 (rendered u l1).
Proof. unfold rendered. apply fold_left_app. Qed.

(** The loops over the editors and the decoration types they make leave
    the slicer's document and offsets and the host's documents and editors
    as they are, and only add to the log. *)
Lemma displaySlices_keeps (editors : list TextEditor)
    (sliceElements : list SliceElement) (this : PositionSlicer) (h : Host) :
  let st := snd (displaySlices editors sliceElements (this, h)) in
  doc (fst st) = doc this /\
  offsets (fst st) = offsets this /\
  positionDeco (fst st) = positionDeco this /\
  documents (snd st) = documents h /\
  exists shown, log (snd st) = log h ++ shown /\
    forall u current, fold_left (render u) shown current = current.
Proof.
  revert this h.
  induction editors as [| editor rest IH]; intros this h; simpl.
  - repeat split; try reflexivity. exists []. now rewrite app_nil_r.
  - unfold bind, this_. simpl.
    destruct (Pos.eqb (editor_document editor) (doc this)).
    + unfold ensureSliceDecos, bind, this_. simpl.
      destruct (sliceDecos this) as [sd |] eqn:Hsd; simpl.
      * match goal with
        | |- context [displaySlices rest sliceElements (?s, ?h0)] =>
            destruct (IH s h0) as (Hd & Ho & Hp & Hdocs & shown & Hlog & Hq)
        end.
        simpl in *. repeat split; try assumption.
        eexists (_ :: shown). rewrite Hlog, <- app_assoc. split; [reflexivity |].
        intros u current. simpl. apply Hq.
      * match goal with
        | |- context [displaySlices rest sliceElements (?s, ?h0)] =>
            destruct (IH s h0) as (Hd & Ho & Hp & Hdocs & shown & Hlog & Hq)
        end.
        simpl in *. repeat split; try assumption.
        eexists (_ :: shown). rewrite Hlog, <- app_assoc. split; [reflexivity |].
        intros u current. simpl. apply Hq.
    + simpl. apply IH.
Qed.

(** The end of [addPositions] adds to the log, and nothing that it adds
    writes the reconstruction of a document. *)
Lemma addPositions_end_log (w : World) (ref : nat) (d : DocId)
    (this : PositionSlicer) (td : TextDocument) :
  slicers w !! ref = Some this ->
  rendered (makeUri td) (log (host (exec (addPositions_end ref d) w))) =
  rendered (makeUri td) (log (host w)).
Proof.
  intros Href. unfold exec, addPositions_end, bind.
  rewrite (call_unchanged ref this_ w this this Href eq_refl).
  destruct (Z.of_nat (length (offsets this)) =? 0).
  - unfold call. rewrite Href.
    unfold dispose, bind, this_, emit, ret. simpl.
    destruct (sliceDecos this); simpl;
      rewrite <- ?app_assoc, rendered_app; simpl;
      now rewrite dispose_uri_differs.
  - unfold call. rewrite Href. unfold emit. simpl.
    now rewrite rendered_app.
Qed.

(** C1, amended.  An answer carries no sequence number and is compared
    with nothing: it is rendered when it arrives.  Whatever calls are
    suspended and whatever has been rendered, the answer to a request of a
    slicer, with at least one slice element and a non-empty code, makes its
    code the reconstruction of the slicer's document; the reconstruction
    shown is that of the answer that arrived last, be it the answer to the
    latest request or to an older one. *)
Theorem answer_is_rendered (w : World) (i : nat) (t : Pending)
    (this : PositionSlicer) (code : string)
    (sliceElements : list SliceElement) :
  pending w !! i = Some t ->
  pending_await t = AtRetrieveSlice ->
  slicers w !! pending_this t = Some this ->
  sliceElements <> [] ->
  code <> ""%string ->
  rendered (makeUri (documents (host w) (doc this)))
    (log (host (exec (resume i (SliceAnswer code sliceElements)) w)))
  = Some (Some code).
Proof.
  intros Ht Hawait Hthis Hel Hcode.
  assert (Hlen : (Z.of_nat (length sliceElements) =? 0) = false).
  { apply Z.eqb_neq. destruct sliceElements; [congruence | simpl; lia]. }
  destruct code as [| c code]; [congruence |].
  pose proof (lookup_lt_Some _ _ _ Hthis) as Hlt.
  unfold exec, resume, bind, get. rewrite Ht, Hawait.
  unfold call at 1. rewrite Hthis.
  unfold updateSlices_answer. rewrite Hlen. unfold bind, host_. simpl.
  pose proof (displaySlices_keeps (visibleTextEditors (host w)) sliceElements
                this (host w)) as Hkeep.
  destruct (displaySlices (visibleTextEditors (host w)) sliceElements
              (this, host w)) as [[] [this1 h1]].
  simpl in Hkeep. destruct Hkeep as (Hd & Ho & Hp & Hdocs & shown & Hlog & Hq).
  simpl. unfold finish, bind.
  unfold call at 1. simpl slicers.
  rewrite list_lookup_insert_eq by exact Hlt.
  unfold updateOutput_end, bind, this_doc, emit. simpl fst. simpl snd.
  simpl orNoSlice. rewrite Hdocs, Hd.
  set (u := makeUri (documents (host w) (doc this))).
  match goal with
  | |- context [match pending_caller t with _ => _ end ?w0] =>
      set (w1 := w0);
      assert (Hw1 : rendered u (log (host w1)) = Some (Some (String c code)))
  end.
  { subst w1. simpl. rewrite rendered_app. simpl.
    now rewrite Uri_eqb_refl. }
  destruct (pending_caller t) as [d |].
  - assert (Hthis1 : slicers w1 !! pending_this t = Some this1).
    { subst w1. simpl. rewrite list_insert_insert_eq.
      apply list_lookup_insert_eq. exact Hlt. }
    pose proof (addPositions_end_log w1 (pending_this t) d this1
                  (documents (host w) (doc this)) Hthis1) as Hend.
    unfold exec in Hend. fold u in Hend.
    destruct (addPositions_end (pending_this t) d w1) as [r w2].
    simpl in *. now rewrite Hend.
  - exact Hw1.
Qed.

(** In the example the answer to the first request, coming after the answer
    to the second, becomes the reconstruction shown. *)
Lemma answer_is_rendered_witness :
  rendered slice_uri
    (log (host (exec (resume 0 answer1)
                  (exec (resume 1 answer2) two_requests))))
  = Some (Some "a <- 1; b <- a + 1"%string).
Proof.
  apply (answer_is_rendered (exec (resume 1 answer2) two_requests) 0
           (mkPending 0 AtRetrieveSlice (InAddPositions 1))
           (mkSlicer 1 [8; 20] (Some 1%nat) 0)).
  - vm_compute. reflexivity.
  - reflexivity.
  - vm_compute. reflexivity.
  - discriminate.
  - discriminate.
Defined.

(** ** Nothing to slice, from the settled promise to the provider *)

(** What the end of [addPositions] adds to the log has no slice request in
    it and writes no reconstruction; the slicer objects and the suspended
    calls stay. *)
Lemma addPositions_end_effects (w : World) (ref : nat) (d : DocId)
    (this : PositionSlicer) :
  slicers w !! ref = Some this ->
  let w' := exec (addPositions_end ref d) w in
  slicers w' = slicers w /\
  pending w' = pending w /\
  exists tail,
    log (host w') = log (host w) ++ tail /\
    (forall ps dd, ~ In (RetrieveSlice ps dd) tail) /\
    (forall td cur, fold_left (render (makeUri td)) tail cur = cur).
Proof.
  intros Href. cbv zeta. unfold exec, addPositions_end, bind.
  rewrite (call_unchanged ref this_ w this this Href eq_refl).
  destruct (Z.of_nat (length (offsets this)) =? 0).
  - unfold call. rewrite Href.
    unfold dispose, bind, this_, emit, ret. simpl.
    destruct (sliceDecos this) as [sd |] eqn:Hsd; simpl;
      (split; [now apply list_insert_id |]); (split; [reflexivity |]).
    + exists [UpdateContents (mkUri positionSlicerAuthority
                                positionSlicerSuffix) None;
              DisposePositionDeco (positionDeco this);
              DisposeSliceDecos sd].
      rewrite <- !app_assoc. split; [reflexivity |]. split.
      * intros ps dd [H | [H | [H | []]]]; discriminate.
      * intros td cur. simpl. now rewrite dispose_uri_differs.
    + exists [UpdateContents (mkUri positionSlicerAuthority
                                positionSlicerSuffix) None;
              DisposePositionDeco (positionDeco this)].
      rewrite <- !app_assoc. split; [reflexivity |]. split.
      * intros ps dd [H | [H | []]]; discriminate.
      * intros td cur. simpl. now rewrite dispose_uri_differs.
  - unfold call. rewrite Href. unfold emit. simpl.
    split; [now apply list_insert_id |]. split; [reflexivity |].
    exists [ClearSelectionSliceDecos d]. split; [reflexivity |]. split.
    + intros ps dd [H | []]. discriminate.
    + reflexivity.
Qed.

(** After [undefined] from [updateSlices]: the provider gets [# No slice]
    for the document, and what follows in the caller has no slice request
    in it and writes no reconstruction. *)
Lemma finish_nothing (w : World) (t : Pending) (this : PositionSlicer) :
  slicers w !! pending_this t = Some this ->
  let w' := exec (finish t None) w in
  let uri := makeUri (documents (host w) (doc this)) in
  slicers w' = slicers w /\
  pending w' = pending w /\
  exists tail,
    log (host w') =
      log (host w) ++ [UpdateContents uri (Some "# No slice"%string)] ++ tail /\
    (forall ps dd, ~ In (RetrieveSlice ps dd) tail) /\
    (forall td cur, fold_left (render (makeUri td)) tail cur = cur).
Proof.
  intros Href w' uri.
  set (w1 := set_host w
               (set_log (host w)
                  (log (host w) ++
                   [UpdateContents uri (Some "# No slice"%string)]))).
  assert (Hcall : call (pending_this t) (updateOutput_end None) w
                  = (Some tt, w1)).
  { unfold call. rewrite Href.
    unfold updateOutput_end, bind, this_doc, emit. simpl.
    rewrite list_insert_id by exact Href. subst w1 uri.
    now destruct w. }
  assert (Hw' : w' = match pending_caller t with
                     | InAddPositions d =>
                         exec (addPositions_end (pending_this t) d) w1
                     | InOnDocChange => w1
                     end).
  { subst w'. unfold exec, finish, bind. rewrite Hcall.
    destruct (pending_caller t) as [d |]; [| reflexivity].
    destruct (addPositions_end (pending_this t) d w1); reflexivity. }
  rewrite Hw'. destruct (pending_caller t) as [d |].
  - assert (Href1 : slicers w1 !! pending_this t = Some this) by exact Href.
    pose proof (addPositions_end_effects w1 (pending_this t) d this Href1)
      as Hend.
    cbv zeta in Hend. destruct Hend as (Hsl & Hpn & tail & Hlog & Hno & Hq).
    split; [exact Hsl |]. split; [exact Hpn |].
    exists tail. rewrite Hlog. subst w1. simpl. rewrite <- app_assoc.
    repeat split; assumption.
  - split; [reflexivity |]. split; [reflexivity |].
    exists []. split; [reflexivity |]. split; [intros ps dd [] | reflexivity].
Qed.

(** C8. A suspended update that finds no tracked offset when the session
    is there, or that is answered with no slice element, ends without a
    slice request and with [# No slice] shown: the slice decorations that
    the slicer holds are disposed of and forgotten, the call is suspended
    no longer, the log grows by that disposal, the content [# No slice] for
    the reconstruction of the document and what the caller still does, in
    which no [retrieveSlice] occurs; and the reconstruction rendered for
    the document is [# No slice] then, whatever was rendered before. *)
Theorem nothing_to_slice (w : World) (i : nat) (t : Pending)
    (this : PositionSlicer) (v : Settled) :
  pending w !! i = Some t ->
  slicers w !! pending_this t = Some this ->
  (pending_await t = AtGetFlowrSession /\ v = SessionReady /\
   offsets this = []) \/
  (pending_await t = AtRetrieveSlice /\ exists code, v = SliceAnswer code []) ->
  let w' := exec (resume i v) w in
  let uri := makeUri (documents (host w) (doc this)) in
  rendered uri (log (host w')) = Some (Some "# No slice"%string) /\
  slicers w' = <[pending_this t := set_sliceDecos this None]> (slicers w) /\
  pending w' = delete i (pending w) /\
  exists tail,
    log (host w') =
      log (host w) ++ disposal this
        ++ [UpdateContents uri (Some "# No slice"%string)] ++ tail /\
    (forall ps d, ~ In (RetrieveSlice ps d) tail).
Proof.
  intros Ht Hthis Hcase. cbv zeta.
  pose proof (lookup_lt_Some _ _ _ Hthis) as Hlt.
  set (this1 := set_sliceDecos this None).
  set (w1 := set_pending
               (set_slicers
                  (set_host w (set_log (host w)
                                 (log (host w) ++ disposal this)))
                  (<[pending_this t := this1]> (slicers w)))
               (delete i (pending w))).
  assert (Hstep : exec (resume i v) w = exec (finish t None) w1).
  { unfold exec, resume, bind, get. rewrite Ht.
    destruct Hcase as [(Hawait & -> & Hoff) | (Hawait & code & ->)];
      rewrite Hawait; unfold call at 1; rewrite Hthis.
    - unfold updateSlices_session, bind, this_, this_doc. simpl.
      rewrite Hoff. simpl. rewrite clearSliceDecos_run. reflexivity.
    - unfold updateSlices_answer, bind. simpl.
      rewrite clearSliceDecos_run. reflexivity. }
  rewrite Hstep.
  assert (Href1 : slicers w1 !! pending_this t = Some this1).
  { subst w1. simpl. apply list_lookup_insert_eq. exact Hlt. }
  pose proof (finish_nothing w1 t this1 Href1) as Hfin.
  cbv zeta in Hfin. destruct Hfin as (Hsl & Hpn & tail & Hlog & Hno & Hq).
  change (documents (host w1) (doc this1))
    with (documents (host w) (doc this)) in Hlog.
  split; [| split; [exact Hsl | split; [exact Hpn |]]].
  - rewrite Hlog. rewrite !rendered_app. simpl.
    rewrite Uri_eqb_refl. apply Hq.
  - exists tail. split; [| exact Hno].
    rewrite Hlog. subst w1. simpl. now rewrite <- app_assoc.
Qed.

(** After the [b] of [ b <- 1] has been deleted, the update finds nothing
    tracked and [# No slice] takes the place of the slice shown; and an
    answer without an element to the request for [b] shows [# No slice]
    too. *)
Lemma nothing_to_slice_witness :
  rendered (makeUri deleted_word) (log (host b_emptied)) =
    Some (Some "b <- 1"%string) /\
  rendered (makeUri deleted_word)
    (log (host (exec (resume 0 SessionReady) b_emptied))) =
    Some (Some "# No slice"%string) /\
  rendered (makeUri one_assignment)
    (log (host (exec (resume 0 (SliceAnswer "b <- 1" [])) b_requested))) =
    Some (Some "# No slice"%string).
Proof.
  split; [vm_compute; reflexivity |]. split.
  - assert (H1 : pending b_emptied !! 0%nat =
                 Some (mkPending 0 AtGetFlowrSession InOnDocChange))
      by (vm_compute; reflexivity).
    assert (H2 : slicers b_emptied !! 0%nat =
                 Some (mkSlicer 1 [] (Some 1%nat) 0))
      by (vm_compute; reflexivity).
    exact (proj1 (nothing_to_slice b_emptied 0
                    (mkPending 0 AtGetFlowrSession InOnDocChange)
                    (mkSlicer 1 [] (Some 1%nat) 0) SessionReady H1 H2
                    (or_introl (conj eq_refl (conj eq_refl eq_refl))))).
  - assert (H1 : pending b_requested !! 0%nat =
                 Some (mkPending 0 AtRetrieveSlice (InAddPositions 1)))
      by (vm_compute; reflexivity).
    assert (H2 : slicers b_requested !! 0%nat =
                 Some (mkSlicer 1 [1] (Some 1%nat) 0))
      by (vm_compute; reflexivity).
    exact (proj1 (nothing_to_slice b_requested 0
                    (mkPending 0 AtRetrieveSlice (InAddPositions 1))
                    (mkSlicer 1 [1] (Some 1%nat) 0)
                    (SliceAnswer "b <- 1" []) H1 H2
                    (or_intror (conj eq_refl
                                  (ex_intro _ "b <- 1"%string eq_refl))))).
Defined.

(** ** The session registry *)

(** [flowrSession?.destroy()] on a registry with at most the session
    [flowrSession] live leaves no session live. *)
Lemma destroy_if_present_all (r : Registry) :
  single_session r -> all_destroyed (sessions (destroy_if_present r)).
Proof.
  intros [Hall Hcur] i s Hi. unfold destroy_if_present in Hi.
  destruct (flowrSession r) as [ref |] eqn:Hfs; simpl in Hi.
  - destruct (decide (ref = i)) as [-> | Hne].
    + rewrite list_lookup_alter_eq in Hi.
      destruct (Hcur i eq_refl) as (s0 & Hs0 & Hlive).
      rewrite Hs0 in Hi. simpl in Hi. inversion Hi; subst. simpl.
      unfold live in Hlive. apply Nat.eqb_eq in Hlive. now rewrite Hlive.
    + rewrite list_lookup_alter_ne in Hi by exact Hne.
      destruct (Hall i s Hi) as [Hle Hl].
      destruct (destroy_calls s) as [| n] eqn:Hn.
      * unfold live in Hl. rewrite Hn in Hl. specialize (Hl eq_refl).
        congruence.
      * lia.
  - destruct (Hall i s Hi) as [Hle Hl].
    destruct (destroy_calls s) as [| n] eqn:Hn.
    + unfold live in Hl. rewrite Hn in Hl. specialize (Hl eq_refl).
      discriminate.
    + lia.
Qed.

(** A new session in a registry without a live one is the single live
    one. *)
Lemma assign_new_single (k : SessionKind) (r : Registry) :
  all_destroyed (sessions r) -> single_session (assign_new k r).
Proof.
  intros Hdead. split.
  - intros i s Hi. simpl in Hi.
    apply lookup_app_Some in Hi as [Hi | [Hge Hi]].
    + rewrite (Hdead i s Hi). split; [lia |].
      unfold live. rewrite (Hdead i s Hi). discriminate.
    + apply list_lookup_singleton_Some in Hi as [Hz <-]. simpl.
      split; [lia |]. intros _. f_equal. lia.
  - intros i Hi. simpl in Hi. inversion Hi; subst.
    exists (mkSession k 0). split; [| reflexivity]. simpl.
    rewrite lookup_app_r by lia. now rewrite Nat.sub_diag.
Qed.

Lemma destroySession_single (r : Registry) :
  single_session r -> single_session (Part000.destroySession r).
Proof.
  intros Hr. pose proof (destroy_if_present_all r Hr) as Hdead.
  split.
  - intros i s Hi. simpl in Hi. rewrite (Hdead i s Hi).
    split; [lia |]. unfold live. rewrite (Hdead i s Hi). discriminate.
  - intros i Hi. discriminate.
Qed.

Lemma Extension_step_single (r : Registry) (op : Op) :
  single_session r -> single_session (Extension.step r op).
Proof.
  intros Hr. destruct op; simpl; [| | exact Hr];
    apply assign_new_single; now apply destroy_if_present_all.
Qed.

Lemma Part000_step_single (r : Registry) (op : Op) :
  single_session r -> single_session (Part000.step r op).
Proof.
  intros Hr. destruct op; simpl.
  - apply assign_new_single. simpl. now apply destroy_if_present_all.
  - apply assign_new_single. simpl. now apply destroy_if_present_all.
  - now apply destroySession_single.
Qed.

Lemma no_session_single : single_session no_session.
Proof.
  split; [intros i s H | intros i H]; simpl in H.
  - rewrite lookup_nil in H. discriminate.
  - discriminate.
Qed.

Lemma steps_single (step : Registry -> Op -> Registry) (ops : list Op)
    (r : Registry) :
  (forall r op, single_session r -> single_session (step r op)) ->
  single_session r -> single_session (fold_left step ops r).
Proof.
  intros Hstep. revert r.
  induction ops as [| op rest IH]; intros r Hr; simpl; [exact Hr |].
  apply IH. now apply Hstep.
Qed.

(** C9. After any sequence of [establishInternalSession],
    [establishServerSession] and, in the later revision, [destroySession]
    from the state without a session, in either revision: a session that
    has been constructed and not destroyed is the one [flowrSession] refers
    to, so at most one is live, and no session has received [destroy()]
    twice.  Establishing a session is a [destroy()] of the present session,
    if there is one, followed by the construction of the new one.
    [destroySession] clears [flowrSession]; a second call changes nothing,
    and without a session a call changes nothing. *)
Theorem one_session_at_a_time (ops : list Op) (r : Registry)
    (l : list Session) :
  single_session (fold_left Extension.step ops no_session) /\
  single_session (fold_left Part000.step ops no_session) /\
  Extension.establishInternalSession r =
    assign_new FlowrInternalSession (destroy_if_present r) /\
  Extension.establishServerSession r =
    assign_new FlowrServerSession (destroy_if_present r) /\
  Part000.establishInternalSession r =
    assign_new FlowrInternalSession (Part000.destroySession r) /\
  Part000.establishServerSession r =
    assign_new FlowrServerSession (Part000.destroySession r) /\
  flowrSession (Part000.destroySession r) = None /\
  Part000.destroySession (Part000.destroySession r) =
    Part000.destroySession r /\
  Part000.destroySession (mkRegistry l None) = mkRegistry l None.
Proof.
  split.
  { apply steps_single;
      [exact Extension_step_single | exact no_session_single]. }
  split.
  { apply steps_single;
      [exact Part000_step_single | exact no_session_single]. }
  repeat split.
Qed.

(** At most one session is live in a registry that satisfies
    [single_session]. *)
Lemma single_session_unique (r : Registry) (i j : nat) (si sj : Session) :
  single_session r ->
  sessions r !! i = Some si -> live si = true ->
  sessions r !! j = Some sj -> live sj = true ->
  i = j.
Proof.
  intros [Hall _] Hi Hli Hj Hlj.
  destruct (Hall i si Hi) as [_ Hci]. destruct (Hall j sj Hj) as [_ Hcj].
  specialize (Hci Hli). specialize (Hcj Hlj). congruence.
Qed.

(** * Further properties of the code *)

(** ** [shiftOffset] over the surviving offsets *)

(** X1. An edit keeps the order of the offsets that survive it: of two
    offsets that are both kept, the smaller one stays the smaller one.  So
    an edit never merges two tracked offsets. *)
Theorem shiftOffset_monotone (cc : TextDocumentContentChangeEvent)
    (o1 o2 s1 s2 : Z) :
  o1 < o2 ->
  shiftOffset o1 cc = Some s1 ->
  shiftOffset o2 cc = Some s2 ->
  s1 < s2.
Proof.
  unfold shiftOffset, text_length. intros Hlt H1 H2.
  pose proof (Nat2Z.is_nonneg (String.length (text cc))) as Htl.
  destruct (Z.gtb_spec (rangeOffset cc) o1);
    destruct (Z.gtb_spec (rangeLength cc + rangeOffset cc) o1);
    destruct (Z.gtb_spec (rangeOffset cc) o2);
    destruct (Z.gtb_spec (rangeLength cc + rangeOffset cc) o2);
    try discriminate; inversion H1; inversion H2; subst; lia.
Qed.

(** Around the replacement of [[4,6)] by three characters, the offsets 2
    and 9 become 2 and 10. *)
Lemma shiftOffset_monotone_witness :
  shiftOffset 2 (mkChange 4 2 "abc") = Some 2 /\
  shiftOffset 9 (mkChange 4 2 "abc") = Some 10 /\
  2 < 10.
Proof.
  split; [reflexivity | split; [reflexivity |]].
  apply (shiftOffset_monotone (mkChange 4 2 "abc") 2 9 2 10);
    [lia | reflexivity | reflexivity].
Defined.

(** X2. Undoing an edit takes a surviving offset back: when [cc] replaces
    [rangeLength] characters at [rangeOffset] by [text], and [undo]
    replaces the characters of [text] at the same place by as many
    characters as [cc] removed, an offset kept by [cc] is kept by [undo]
    and is thereafter what it was. *)
Theorem shiftOffset_undo (cc undo : TextDocumentContentChangeEvent)
    (o s : Z) :
  rangeOffset undo = rangeOffset cc ->
  rangeLength undo = text_length cc ->
  text_length undo = rangeLength cc ->
  shiftOffset o cc = Some s ->
  shiftOffset s undo = Some o.
Proof.
  intros Hoff Hlen Htxt H.
  assert (Htl : 0 <= text_length cc) by apply Nat2Z.is_nonneg.
  assert (Hs : (rangeOffset cc > o /\ s = o) \/
               (rangeOffset cc <= o /\ rangeLength cc + rangeOffset cc <= o /\
                s = o + (text_length cc - rangeLength cc))).
  { unfold shiftOffset in H.
    destruct (Z.gtb_spec (rangeOffset cc) o);
      destruct (Z.gtb_spec (rangeLength cc + rangeOffset cc) o);
      try discriminate; inversion H; subst; lia. }
  unfold shiftOffset. rewrite Hoff, Hlen, Htxt.
  destruct Hs as [[Hgt ->] | (Hle & Hend & ->)];
    destruct (Z.gtb_spec (rangeOffset cc) o);
    destruct (Z.gtb_spec (rangeOffset cc)
                (o + (text_length cc - rangeLength cc)));
    destruct (Z.gtb_spec (text_length cc + rangeOffset cc) o);
    destruct (Z.gtb_spec (text_length cc + rangeOffset cc)
                (o + (text_length cc - rangeLength cc)));
    try lia; try reflexivity; f_equal; lia.
Qed.

(** The replacement of [[4,6)] by [abc] moves the offset 9 to 10, and the
    replacement of [[4,7)] by [xy] moves it back. *)
Lemma shiftOffset_undo_witness :
  shiftOffset 9 (mkChange 4 2 "abc") = Some 10 /\
  shiftOffset 10 (mkChange 4 3 "xy") = Some 9.
Proof.
  split; [reflexivity |].
  apply (shiftOffset_undo (mkChange 4 2 "abc") (mkChange 4 3 "xy") 9 10);
    reflexivity.
Defined.

(** X3. An insertion, an edit that replaces no character, invalidates no
    offset: an offset before the place of insertion stays, and an offset at
    or behind it, the place itself included, moves right by the length of
    the inserted text. *)
Theorem shiftOffset_insertion (cc : TextDocumentContentChangeEvent)
    (o : Z) :
  rangeLength cc = 0 ->
  shiftOffset o cc =
    Some (if o <? rangeOffset cc then o else o + text_length cc).
Proof.
  unfold shiftOffset. intros Hlen. rewrite Hlen.
  destruct (Z.gtb_spec (rangeOffset cc) o);
    destruct (Z.gtb_spec (0 + rangeOffset cc) o);
    destruct (Z.ltb_spec o (rangeOffset cc)); try lia;
    try reflexivity. f_equal. lia.
Qed.

(** The insertion of [abc] at 4 moves the offset 4 to 7. *)
Lemma shiftOffset_insertion_witness :
  shiftOffset 4 (mkChange 4 0 "abc") = Some 7.
Proof.
  apply (shiftOffset_insertion (mkChange 4 0 "abc") 4). reflexivity.
Defined.

(** ** The loops of [onDocChange] *)

(** A positive offset stays positive under a well-formed edit that is not
    a deletion at the very start of the document. *)
Lemma shiftOffset_positive (cc : TextDocumentContentChangeEvent) (o s : Z) :
  0 <= rangeOffset cc ->
  0 < rangeOffset cc \/ 0 < text_length cc ->
  0 < o ->
  shiftOffset o cc = Some s ->
  0 < s.
Proof.
  unfold shiftOffset. intros Hoff Hcase Ho H.
  assert (Htl : 0 <= text_length cc) by apply Nat2Z.is_nonneg.
  destruct (Z.gtb_spec (rangeOffset cc) o);
    destruct (Z.gtb_spec (rangeLength cc + rangeOffset cc) o);
    try discriminate; inversion H; subst; lia.
Qed.

(** X4. For a tracked offset behind the start of the document and edits
    none of which deletes at the very start without inserting, the inner
    loop of [onDocChange] is the composition of [shiftOffset] over the
    edits in their order: it ends with the offset that the last edit
    gives, or with [-1] as soon as an edit invalidates. *)
Theorem shiftThrough_composes (offset : Z)
    (edits : list TextDocumentContentChangeEvent) :
  0 < offset ->
  Forall (fun cc => 0 <= rangeOffset cc /\
                    (0 < rangeOffset cc \/ 0 < text_length cc)) edits ->
  shiftThrough offset edits = default (-1) (applyEdits_spec offset edits).
Proof.
  intros Hpos Hall. apply shiftThrough_applyEdits.
  revert offset Hpos.
  induction Hall as [| cc rest [Hoff Hcase] _ IH]; intros offset Hpos; simpl.
  - reflexivity.
  - destruct (shiftOffset offset cc) as [s |] eqn:Hs; [| reflexivity].
    pose proof (shiftOffset_positive cc offset s Hoff Hcase Hpos Hs) as Hs0.
    apply andb_true_iff. split.
    + apply negb_true_iff, Z.eqb_neq. lia.
    + now apply IH.
Qed.

(** The offset 10 goes through an insertion of seven characters at the
    start and a deletion of [[2,5)] to 14. *)
Lemma shiftThrough_composes_witness :
  shiftThrough 10 [mkChange 0 0 "x <- 2;"; mkChange 2 3 ""] = 14.
Proof.
  apply (shiftThrough_composes 10 [mkChange 0 0 "x <- 2;"; mkChange 2 3 ""]).
  - lia.
  - repeat constructor; simpl; lia.
Defined.

(** X5. A change of the document never adds a tracked offset and never
    leaves a negative one: the offsets after [onDocChange] are at most as
    many as before, each is non-negative, and each is the start of a word
    of the changed document as [normalizeOffset] gives it. *)
Theorem remapOffsets_bounds (d : TextDocument)
    (edits : list TextDocumentContentChangeEvent) (this_offsets : list Z) :
  let newOffsets := remapOffsets d edits this_offsets [] in
  (length newOffsets <= length this_offsets)%nat /\
  Forall (fun o => 0 <= o /\ exists n, o = normalizeOffset d (inl n))
    newOffsets.
Proof.
  cbv zeta. rewrite remapOffsets_map. simpl. split.
  - etransitivity; [apply List.filter_length_le |]. now rewrite length_map.
  - apply List.Forall_forall. intros o Ho.
    apply filter_In in Ho as [Hin Hge].
    apply in_map_iff in Hin as (o0 & Heq & _).
    split; [apply Z.geb_le in Hge; lia |]. eauto.
Qed.

(** ** [togglePositions]: more *)

Lemma normalizedOffsets_nonneg (d : TextDocument) (positions : list Position) :
  Forall (fun o => 0 <= o) (normalizedOffsets d positions).
Proof.
  apply List.Forall_forall. intros o Ho. unfold normalizedOffsets in Ho.
  apply filter_In in Ho as [_ Hge]. apply Z.geb_le in Hge. lia.
Qed.

(** [togglePositions] tracks no negative offset unless one was tracked. *)
Lemma togglePositions_nonneg (d : TextDocument) (positions : list Position)
    (this : PositionSlicer) :
  Forall (fun o => 0 <= o) (offsets this) ->
  Forall (fun o => 0 <= o) (offsets (snd (togglePositions d positions this))).
Proof.
  intros Hnn. rewrite togglePositions_unfold. cbv zeta.
  pose proof (normalizedOffsets_nonneg d positions) as Hoffs.
  destruct (normalizedOffsets d positions) as [| o0 rest] eqn:Heq;
    [exact Hnn |].
  rewrite <- Heq in *.
  destruct (forallb (includes (offsets this)) (normalizedOffsets d positions));
    simpl.
  - apply List.Forall_forall. intros o Ho. apply filter_In in Ho as [Ho _].
    rewrite List.Forall_forall in Hnn. now apply Hnn.
  - destruct (addUntracked_appends (normalizedOffsets d positions)
                (offsets this) true) as (added & Hadd & _ & Hin).
    rewrite Hadd. apply Forall_app. split; [exact Hnn |].
    apply List.Forall_forall. intros o Ho. apply Hin in Ho as [Ho _].
    rewrite List.Forall_forall in Hoffs. now apply Hoffs.
Qed.

(** X6. [togglePositions] keeps the tracked offsets duplicate-free and
    non-negative, also when several of the positions lie in one word. *)
Theorem togglePositions_keeps (d : TextDocument) (positions : list Position)
    (this : PositionSlicer) :
  List.NoDup (offsets this) ->
  Forall (fun o => 0 <= o) (offsets this) ->
  let after := snd (togglePositions d positions this) in
  List.NoDup (offsets after) /\ Forall (fun o => 0 <= o) (offsets after).
Proof.
  intros Hnd Hnn. split.
  - now apply togglePositions_NoDup.
  - now apply togglePositions_nonneg.
Qed.

(** On [a <- 1; b <- a + 1; print(b)] with the offsets 0 and 8 tracked,
    two cursors in [print] add the offset 20 once. *)
Lemma togglePositions_keeps_witness :
  offsets (snd (togglePositions three_statements
                  [mkPosition 0 21; mkPosition 0 24]
                  (mkSlicer 1 [0; 8] None 0))) = [0; 8; 20] /\
  List.NoDup [0; 8; 20] /\ Forall (fun o => 0 <= o) [0; 8; 20].
Proof.
  split; [reflexivity |].
  apply (togglePositions_keeps three_statements
           [mkPosition 0 21; mkPosition 0 24] (mkSlicer 1 [0; 8] None 0)).
  - repeat constructor; simpl; intuition lia.
  - repeat constructor; lia.
Defined.

(** X7. [togglePositions] returns [false] exactly when none of the
    positions normalizes, the empty list of positions included, and then
    it leaves the slicer as it is. *)
Theorem togglePositions_false (d : TextDocument) (positions : list Position)
    (this : PositionSlicer) :
  (fst (togglePositions d positions this) = false <->
   normalizedOffsets d positions = []) /\
  (fst (togglePositions d positions this) = false ->
   snd (togglePositions d positions this) = this) /\
  togglePositions d [] this = (false, this).
Proof.
  rewrite togglePositions_unfold. cbv zeta.
  destruct (normalizedOffsets d positions) as [| o0 rest] eqn:Heq.
  - repeat split; reflexivity.
  - rewrite <- Heq.
    destruct (forallb (includes (offsets this))
                (normalizedOffsets d positions)); simpl;
      (split; [split; [discriminate | rewrite Heq; discriminate] |]);
      (split; [discriminate | reflexivity]).
Qed.

(** On [a <- 1; b <- a + 1; print(b)] nothing is at the blank at offset 3:
    toggling it returns [false] and changes nothing. *)
Lemma togglePositions_false_witness :
  snd (togglePositions three_statements [mkPosition 0 3]
         (mkSlicer 1 [0] None 0)) = mkSlicer 1 [0] None 0.
Proof.
  apply (togglePositions_false three_statements [mkPosition 0 3]
           (mkSlicer 1 [0] None 0)).
  reflexivity.
Defined.

(** ** What the methods leave alone *)

Lemma keeps_ret {A} (a : A) : keeps (ret a).
Proof. intros st. simpl. tauto. Qed.

Lemma keeps_bind {A B} (m : Method A) (k : A -> Method B) :
  keeps m -> (forall a, keeps (k a)) -> keeps (bind m k).
Proof.
  intros Hm Hk st. unfold bind. specialize (Hm st).
  destruct (m st) as [a st1]. specialize (Hk a st1). simpl in *.
  destruct Hm as (H1 & H2 & H3 & H4 & H5).
  destruct Hk as (K1 & K2 & K3 & K4 & K5).
  repeat split; congruence.
Qed.

Lemma keeps_this : keeps this_.
Proof. intros st. simpl. tauto. Qed.

Lemma keeps_host : keeps host_.
Proof. intros st. simpl. tauto. Qed.

Lemma keeps_this_doc : keeps this_doc.
Proof. intros st. simpl. tauto. Qed.

Lemma keeps_emit (e : Effect) : keeps (emit e).
Proof. intros st. simpl. tauto. Qed.

Lemma keeps_ensureSliceDecos : keeps ensureSliceDecos.
Proof.
  intros [this h]. unfold ensureSliceDecos, bind, this_. simpl.
  destruct (sliceDecos this); simpl; tauto.
Qed.

Lemma keeps_clearSliceDecos : keeps clearSliceDecos.
Proof. intros [this h]. rewrite clearSliceDecos_run. simpl. tauto. Qed.

Lemma keeps_setTargetDecos (editors : list TextEditor) (ranges : list Range) :
  keeps (setTargetDecos editors ranges).
Proof.
  induction editors as [| editor rest IH]; simpl; [apply keeps_ret |].
  apply keeps_bind; [apply keeps_this |]. intros this.
  apply keeps_bind; [| intros _; exact IH].
  destruct (Pos.eqb (editor_document editor) (doc this)); [| apply keeps_ret].
  apply keeps_bind; [apply keeps_ensureSliceDecos | intros _; apply keeps_emit].
Qed.

Lemma keeps_displaySlices (editors : list TextEditor)
    (sliceElements : list SliceElement) :
  keeps (displaySlices editors sliceElements).
Proof.
  induction editors as [| editor rest IH]; simpl; [apply keeps_ret |].
  apply keeps_bind; [apply keeps_this |]. intros this.
  apply keeps_bind; [| intros _; exact IH].
  destruct (Pos.eqb (editor_document editor) (doc this)); [| apply keeps_ret].
  apply keeps_bind; [apply keeps_ensureSliceDecos | intros sd; apply keeps_emit].
Qed.

Lemma keeps_updateTargetDecos : keeps updateTargetDecos.
Proof.
  unfold updateTargetDecos.
  apply keeps_bind; [apply keeps_this |]. intros this.
  apply keeps_bind; [apply keeps_this_doc |]. intros d.
  apply keeps_bind; [apply keeps_host |]. intros h.
  apply keeps_setTargetDecos.
Qed.

Lemma keeps_updateOutput_begin : keeps updateOutput_begin.
Proof.
  unfold updateOutput_begin, updateSlices_begin.
  apply keeps_bind; [apply keeps_updateTargetDecos | intros _; apply keeps_emit].
Qed.

Lemma keeps_updateSlices_session : keeps updateSlices_session.
Proof.
  unfold updateSlices_session.
  apply keeps_bind; [apply keeps_this |]. intros this.
  apply keeps_bind; [apply keeps_this_doc |]. intros d.
  destruct (Z.of_nat _ =? 0);
    (apply keeps_bind; [| intros _; apply keeps_ret]).
  - apply keeps_clearSliceDecos.
  - apply keeps_emit.
Qed.

Lemma keeps_updateSlices_answer (code : string)
    (sliceElements : list SliceElement) :
  keeps (updateSlices_answer code sliceElements).
Proof.
  unfold updateSlices_answer. destruct (Z.of_nat _ =? 0).
  - apply keeps_bind; [apply keeps_clearSliceDecos | intros _; apply keeps_ret].
  - apply keeps_bind; [apply keeps_host |]. intros h.
    apply keeps_bind; [apply keeps_displaySlices | intros _; apply keeps_ret].
Qed.

Lemma keeps_updateOutput_end (code : option string) :
  keeps (updateOutput_end code).
Proof.
  unfold updateOutput_end.
  apply keeps_bind; [apply keeps_this_doc | intros d; apply keeps_emit].
Qed.

Lemma keeps_dispose : keeps dispose.
Proof.
  unfold dispose.
  apply keeps_bind; [apply keeps_emit |]. intros _.
  apply keeps_bind; [apply keeps_this |]. intros this.
  apply keeps_bind; [apply keeps_emit |]. intros _.
  destruct (sliceDecos this); [apply keeps_emit | apply keeps_ret].
Qed.

(** ** The loops over the visible editors *)

Lemma setTargetDecos_log (editors : list TextEditor) (ranges : list Range)
    (this : PositionSlicer) (h : Host) :
  log (snd (snd (setTargetDecos editors ranges (this, h)))) =
  log h ++ map (fun editor =>
                  SetDecorations (editor_id editor) (positionDeco this) ranges)
             (editors_of (doc this) editors).
Proof.
  revert this h.
  induction editors as [| editor rest IH]; intros this h; simpl.
  - now rewrite app_nil_r.
  - unfold bind, this_. simpl.
    destruct (Pos.eqb (editor_document editor) (doc this)) eqn:Heq; simpl.
    + pose proof (keeps_ensureSliceDecos (this, h)) as Hk.
      destruct (ensureSliceDecos (this, h)) as [sd [this1 h1]] eqn:He.
      simpl in Hk. destruct Hk as (Hd & _ & Hp & _ & _).
      assert (Hl : log h1 = log h).
      { unfold ensureSliceDecos, bind, this_ in He. simpl in He.
        destruct (sliceDecos this); inversion He; reflexivity. }
      simpl. rewrite IH. simpl. rewrite Hl, Hd, Hp, <- app_assoc.
      reflexivity.
    + apply IH.
Qed.

(** X8. [updateTargetDecos] sets the position decoration in the visible
    editors that show the slicer's document, once in each and in their
    order, with the word ranges at the tracked offsets; it sets nothing in
    an editor of another document, and it leaves the tracked offsets as
    they are. *)
Theorem updateTargetDecos_editors (this : PositionSlicer) (h : Host) :
  let st := snd (updateTargetDecos (this, h)) in
  let ranges := targetRanges (documents h (doc this)) (offsets this) [] in
  log (snd st) =
    log h ++ map (fun editor =>
                    SetDecorations (editor_id editor) (positionDeco this)
                      ranges)
               (editors_of (doc this) (visibleTextEditors h)) /\
  offsets (fst st) = offsets this /\
  (length ranges <= length (offsets this))%nat.
Proof.
  cbv zeta. split; [| split].
  - unfold updateTargetDecos, bind, this_, this_doc, host_. simpl.
    apply setTargetDecos_log.
  - apply (keeps_updateTargetDecos (this, h)).
  - generalize (documents h (doc this)). intros d.
    assert (H : forall os acc,
              (length (targetRanges d os acc) <= length acc + length os)%nat).
    { induction os as [| o os IH]; intros acc; simpl; [lia |].
      destruct (getPositionAt d (positionAt d o)).
      - specialize (IH (acc ++ [r])). rewrite length_app in IH. simpl in IH.
        lia.
      - specialize (IH acc). lia. }
    apply (H (offsets this) []).
Qed.

Lemma displaySlices_log (editors : list TextEditor)
    (sliceElements : list SliceElement) (this : PositionSlicer) (h : Host) :
  let st := snd (displaySlices editors sliceElements (this, h)) in
  let own := editors_of (doc this) editors in
  log (snd st) =
    log h ++ map (fun editor =>
                    DisplaySlice (editor_id editor) sliceElements
                      (ensured this h)) own /\
  decoTypes (snd st) =
    match own, sliceDecos this with
    | _ :: _, None => S (decoTypes h)
    | _, _ => decoTypes h
    end /\
  sliceDecos (fst st) =
    match own with
    | [] => sliceDecos this
    | _ :: _ => Some (ensured this h)
    end.
Proof.
  revert this h.
  induction editors as [| editor rest IH]; intros this h; simpl.
  - rewrite app_nil_r. repeat split; reflexivity.
  - unfold bind, this_. simpl.
    destruct (Pos.eqb (editor_document editor) (doc this)) eqn:Heq; simpl.
    + unfold ensureSliceDecos, bind, this_, makeSliceDecorationTypes,
        put_this, ret, emit, ensured.
      destruct this as [dd os sd pd]. simpl in *.
      destruct sd as [sd |]; simpl;
        match goal with
        | |- context [displaySlices rest sliceElements (?s, ?h0)] =>
            destruct (IH s h0) as (Hlog & Hdt & Hsd)
        end;
        simpl in *; unfold ensured in *; simpl in *;
        rewrite Hlog, Hdt, Hsd, <- app_assoc;
        destruct (editors_of dd rest); repeat split; reflexivity.
    + apply IH.
Qed.

(** X9. An answer with slice elements is displayed in the visible editors
    that show the slicer's document, once in each and in no other, all with
    one and the same object of decoration types: the one the slicer holds,
    or a new one, of which at most one is made however many editors there
    are.  Nothing is disposed of, and the code of the answer is
    returned. *)
Theorem updateSlices_answer_shows (code : string)
    (sliceElements : list SliceElement) (this : PositionSlicer) (h : Host) :
  sliceElements <> [] ->
  let r := updateSlices_answer code sliceElements (this, h) in
  fst r = Returned (Some code) /\
  log (snd (snd r)) =
    log h ++ map (fun editor =>
                    DisplaySlice (editor_id editor) sliceElements
                      (ensured this h))
               (editors_of (doc this) (visibleTextEditors h)) /\
  (decoTypes (snd (snd r)) <= S (decoTypes h))%nat /\
  offsets (fst (snd r)) = offsets this.
Proof.
  intros Hne.
  assert (Hlen : (Z.of_nat (length sliceElements) =? 0) = false).
  { apply Z.eqb_neq. destruct sliceElements; [congruence | simpl; lia]. }
  cbv zeta. unfold updateSlices_answer. rewrite Hlen.
  unfold bind, host_. simpl.
  pose proof (displaySlices_log (visibleTextEditors h) sliceElements this h)
    as Hd.
  pose proof (keeps_displaySlices (visibleTextEditors h) sliceElements
                (this, h)) as Hk.
  destruct (displaySlices (visibleTextEditors h) sliceElements (this, h))
    as [[] [this1 h1]].
  simpl in *. destruct Hd as (Hlog & Hdt & _).
  split; [reflexivity |]. split; [exact Hlog |]. split; [| apply Hk].
  rewrite Hdt.
  destruct (editors_of (doc this) (visibleTextEditors h));
    destruct (sliceDecos this); lia.
Qed.

(** With the [b] of [ b <- 1] tracked and its document in one editor, an
    answer with one element is displayed in that editor with the
    decoration types the slicer holds. *)
Lemma updateSlices_answer_shows_witness :
  log (snd (snd (updateSlices_answer "b <- 1"
                   [mkSliceElement "0"
                      (mkRange (mkPosition 1 1) (mkPosition 1 7))]
                   (mkSlicer 1 [1] (Some 1%nat) 0,
                    host_showing one_assignment)))) =
  [DisplaySlice 0
     [mkSliceElement "0" (mkRange (mkPosition 1 1) (mkPosition 1 7))] 1].
Proof.
  apply (updateSlices_answer_shows "b <- 1"
           [mkSliceElement "0" (mkRange (mkPosition 1 1) (mkPosition 1 7))]
           (mkSlicer 1 [1] (Some 1%nat) 0) (host_showing one_assignment)).
  discriminate.
Defined.

(** X10. [dispose] clears the content at the address [doc-slicer]/[Slice]:
    it gives the provider [undefined] for that address, which is rendered
    there afterwards, then disposes of the position decoration and of the
    slice decorations that the slicer holds, and does nothing else.  The
    address is the reconstruction of no document: whatever is rendered for
    a document stays rendered.  [this] is left untouched, the tracked
    offsets and the reference to the slice decorations included. *)
Theorem dispose_leaves (this : PositionSlicer) (h : Host)
    (d : TextDocument) :
  let st := snd (dispose (this, h)) in
  let cleared := mkUri positionSlicerAuthority positionSlicerSuffix in
  fst st = this /\
  snd st =
    set_log h
      (log h ++ [UpdateContents cleared None;
                 DisposePositionDeco (positionDeco this)] ++ disposal this) /\
  rendered cleared (log (snd st)) = Some None /\
  rendered (makeUri d) (log (snd st)) = rendered (makeUri d) (log h).
Proof.
  cbv zeta. unfold dispose, disposal, bind, this_, emit, ret. simpl.
  destruct (sliceDecos this) as [sd |]; simpl;
    (split; [reflexivity |]);
    (split; [rewrite <- ?app_assoc; reflexivity |]);
    (split; rewrite <- ?app_assoc, rendered_app; simpl;
       [reflexivity | now rewrite dispose_uri_differs]).
Qed.

(** X11. [updateOutput] never gives the content provider an empty text or
    [undefined]: it gives the code that [updateSlices] returned when that
    is a non-empty string, and [# No slice] otherwise, for the empty code
    too. *)
Theorem updateOutput_end_content (code : option string)
    (this : PositionSlicer) (h : Host) :
  exists content : string,
    content <> ""%string /\
    snd (updateOutput_end code (this, h)) =
      (this,
       set_log h (log h ++ [UpdateContents (makeUri (documents h (doc this)))
                              (Some content)])) /\
    (forall c, code = Some c -> c <> ""%string -> content = c) /\
    (code = None \/ code = Some ""%string ->
     content = "# No slice"%string).
Proof.
  exists (orNoSlice code). split; [| split; [reflexivity | split]].
  - destruct code as [[| c s] |]; simpl; discriminate.
  - intros c -> Hc. destruct c; [congruence | reflexivity].
  - intros [-> | ->]; reflexivity.
Qed.

(** ** [onDocChange]: events that are for the slicer *)

(** X12. A change of the slicer's document with at least one content
    change replaces the tracked offsets by the remapped ones and starts an
    update of the output, whatever the change and whether or not
    [docSlicers] still holds the slicer: one more call is suspended at
    [getFlowrSession()], and [docSlicers] is as it was. *)
Theorem onDocChange_updates (e : TextDocumentChangeEvent) (w : World)
    (ref : nat) (this : PositionSlicer) :
  slicers w !! ref = Some this ->
  document e = doc this ->
  contentChanges e <> [] ->
  let w' := exec (notify e [ref]) w in
  pending w' = pending w ++ [mkPending ref AtGetFlowrSession InOnDocChange] /\
  offsets <$> slicers w' !! ref =
    Some (remapOffsets (documents (host w) (doc this)) (contentChanges e)
            (offsets this) []) /\
  docSlicers w' = docSlicers w /\
  In GetFlowrSession (log (host w')).
Proof.
  intros Href Hdoc Hcc.
  assert (Hlen : (Z.of_nat (length (contentChanges e)) =? 0) = false).
  { apply Z.eqb_neq. destruct (contentChanges e); [congruence | simpl; lia]. }
  pose proof (lookup_lt_Some _ _ _ Href) as Hlt.
  cbv zeta. unfold exec, notify, bind, call. rewrite Href.
  unfold onDocChange, bind, this_, this_doc, put_this. simpl.
  rewrite Hdoc, Pos.eqb_refl, Hlen. simpl.
  set (this1 := set_offsets this _).
  pose proof (keeps_updateOutput_begin (this1, host w)) as Hk.
  assert (Hg : In GetFlowrSession
                 (log (snd (snd (updateOutput_begin (this1, host w)))))).
  { unfold updateOutput_begin, updateSlices_begin, bind, emit.
    destruct (updateTargetDecos (this1, host w)) as [[] [s2 h2]]. simpl.
    apply in_or_app. right. now left. }
  destruct (updateOutput_begin (this1, host w)) as [[] [this2 h2]].
  simpl in *. destruct Hk as (_ & Ho & _).
  split; [reflexivity |]. split; [| split; [reflexivity | exact Hg]].
  rewrite list_lookup_insert_eq by exact Hlt. simpl. now rewrite Ho.
Qed.

(** The slicer of the example still gets the events after it has been
    disposed of and taken out of [docSlicers]. *)
Lemma onDocChange_updates_witness :
  docSlicers b_disposed !! 1%positive = None /\
  pending (exec (notify (mkEvent 1 [mkChange 0 0 "x"]) [0%nat]) b_disposed) =
    pending b_disposed ++ [mkPending 0 AtGetFlowrSession InOnDocChange].
Proof.
  split; [vm_compute; reflexivity |].
  assert (H1 : slicers b_disposed !! 0%nat
               = Some (mkSlicer 1 [1] (Some 1%nat) 0))
    by (vm_compute; reflexivity).
  assert (H2 : document (mkEvent 1 [mkChange 0 0 "x"])
               = doc (mkSlicer 1 [1] (Some 1%nat) 0)) by reflexivity.
  assert (H3 : contentChanges (mkEvent 1 [mkChange 0 0 "x"]) <> [])
    by discriminate.
  exact (proj1 (onDocChange_updates (mkEvent 1 [mkChange 0 0 "x"]) b_disposed
                  0 (mkSlicer 1 [1] (Some 1%nat) 0) H1 H2 H3)).
Defined.

(** ** The invariant of the module *)

Lemma keeps_sound {A} (m : Method A) : keeps m -> sound m.
Proof.
  intros Hk st. destruct (Hk st) as (Hd & Ho & _).
  split; [exact Hd |]. now rewrite Ho.
Qed.

Lemma sound_togglePositions_call (positions : list Position) :
  sound (togglePositions_call positions).
Proof.
  intros [this h]. unfold togglePositions_call, bind, this_, this_doc.
  simpl.
  pose proof (togglePositions_nonneg (documents h (doc this)) positions this)
    as Hnn.
  assert (Hd : doc (snd (togglePositions (documents h (doc this)) positions
                           this)) = doc this).
  { rewrite togglePositions_unfold. cbv zeta.
    destruct (normalizedOffsets (documents h (doc this)) positions);
      [reflexivity |].
    destruct (forallb _ _); reflexivity. }
  destruct (togglePositions (documents h (doc this)) positions this)
    as [r this']. simpl in *. split; assumption.
Qed.

Lemma sound_onDocChange (e : TextDocumentChangeEvent) : sound (onDocChange e).
Proof.
  intros [this h]. unfold onDocChange, bind, this_. simpl.
  destruct (negb (Pos.eqb (document e) (doc this))); [simpl; tauto |].
  destruct (Z.of_nat (length (contentChanges e)) =? 0); [simpl; tauto |].
  unfold this_doc, put_this. simpl.
  set (this1 := set_offsets this _).
  pose proof (keeps_updateOutput_begin (this1, h)) as Hk.
  destruct (updateOutput_begin (this1, h)) as [[] [this2 h2]].
  simpl in *. destruct Hk as (Hd & Ho & _).
  split; [exact Hd |]. intros _. rewrite Ho. subst this1. simpl.
  pose proof (remapOffsets_map (documents h (doc this)) (contentChanges e)
                (offsets this) []) as Hmap.
  simpl in Hmap. rewrite Hmap.
  apply List.Forall_forall. intros o Ho'.
  apply filter_In in Ho' as [_ Hge]. apply Z.geb_le in Hge. lia.
Qed.

Lemma preserves_ret {A} (a : A) : preserves (ret a).
Proof. intros w H. exact H. Qed.

Lemma preserves_bind {A B} (m : State World A) (k : A -> State World B) :
  preserves m -> (forall a, preserves (k a)) -> preserves (bind m k).
Proof.
  intros Hm Hk w Hw. unfold bind. specialize (Hm w Hw).
  destruct (m w) as [a w1]. now apply Hk.
Qed.

Lemma preserves_get : preserves get.
Proof. intros w H. exact H. Qed.

Lemma preserves_call {A} (ref : nat) (m : Method A) :
  sound m -> preserves (call ref m).
Proof.
  intros Hs w [Hreg Hnn]. unfold call.
  destruct (slicers w !! ref) as [s |] eqn:Href; [| now split].
  specialize (Hs (s, host w)).
  destruct (m (s, host w)) as [a [s' h']]. simpl in *.
  destruct Hs as [Hd Hkeep]. split.
  - intros d r Hr. unfold docs_of. simpl.
    rewrite list_lookup_fmap.
    destruct (decide (ref = r)) as [-> | Hne].
    + rewrite list_lookup_insert_eq by (eapply lookup_lt_Some; eauto).
      simpl. rewrite Hd.
      specialize (Hreg d r Hr). unfold docs_of in Hreg.
      rewrite list_lookup_fmap, Href in Hreg. exact Hreg.
    + rewrite list_lookup_insert_ne by exact Hne.
      specialize (Hreg d r Hr). unfold docs_of in Hreg.
      now rewrite list_lookup_fmap in Hreg.
  - unfold offsets_nonneg in *. simpl.
    apply Forall_insert; [exact Hnn |]. apply Hkeep.
    rewrite Forall_lookup in Hnn. exact (Hnn ref s Href).
Qed.

Lemma preserves_pending {A} (f : World -> list Pending) (a : A) :
  preserves (fun w => (a, set_pending w (f w))).
Proof. intros w H. exact H. Qed.

Lemma preserves_delete (d : DocId) :
  preserves (fun w => (tt, set_docSlicers w (delete d (docSlicers w)))).
Proof.
  intros w [Hreg Hnn]. split; [| exact Hnn].
  intros d' r Hr. simpl in Hr.
  apply lookup_delete_Some in Hr as [_ Hr]. now apply Hreg.
Qed.

Lemma preserves_addPositions_end (ref : nat) (d : DocId) :
  preserves (addPositions_end ref d).
Proof.
  unfold addPositions_end.
  apply preserves_bind;
    [apply preserves_call, keeps_sound, keeps_this |].
  intros [this |]; [| apply preserves_ret].
  destruct (Z.of_nat (length (offsets this)) =? 0).
  - apply preserves_bind;
      [apply preserves_call, keeps_sound, keeps_dispose |]. intros _.
    apply preserves_bind; [apply preserves_delete |]. intros _.
    apply preserves_ret.
  - apply preserves_bind;
      [apply preserves_call, keeps_sound, keeps_emit |]. intros _.
    apply preserves_ret.
Qed.

Lemma preserves_finish (t : Pending) (code : option string) :
  preserves (finish t code).
Proof.
  unfold finish.
  apply preserves_bind;
    [apply preserves_call, keeps_sound, keeps_updateOutput_end |]. intros _.
  destruct (pending_caller t); [| apply preserves_ret].
  apply preserves_bind; [apply preserves_addPositions_end |]. intros _.
  apply preserves_ret.
Qed.

Lemma preserves_resume (i : nat) (v : Settled) : preserves (resume i v).
Proof.
  unfold resume. apply preserves_bind; [apply preserves_get |]. intros w0.
  destruct (pending w0 !! i) as [t |]; [| apply preserves_ret].
  destruct (pending_await t), v; try apply preserves_ret.
  - apply preserves_bind;
      [apply preserves_call, keeps_sound, keeps_updateSlices_session |].
    intros [[c |] |].
    + apply preserves_bind;
        [apply (preserves_pending (fun w => delete i (pending w))) |].
      intros _. apply preserves_finish.
    + apply (preserves_pending
               (fun w => <[i := mkPending (pending_this t) AtRetrieveSlice
                                  (pending_caller t)]> (pending w))).
    + apply (preserves_pending (fun w => delete i (pending w))).
  - apply preserves_bind;
      [apply preserves_call, keeps_sound, keeps_updateSlices_answer |].
    intros o.
    apply preserves_bind;
      [apply (preserves_pending (fun w => delete i (pending w))) |].
    intros _. destruct o as [[c |] |]; try apply preserves_ret.
    apply preserves_finish.
Qed.

Lemma preserves_notify (e : TextDocumentChangeEvent) (refs : list nat) :
  preserves (notify e refs).
Proof.
  induction refs as [| ref rest IH]; simpl; [apply preserves_ret |].
  apply preserves_bind; [apply preserves_call, sound_onDocChange |].
  intros r. apply preserves_bind; [| intros _; exact IH].
  destruct r as [[|] |]; try apply preserves_ret.
  apply (preserves_pending (fun w => pending w ++ [_])).
Qed.

Lemma preserves_didChangeTextDocument (content : TextDocument)
    (e : TextDocumentChangeEvent) :
  preserves (didChangeTextDocument content e).
Proof.
  intros w Hw. unfold didChangeTextDocument, bind, get, put.
  apply preserves_notify. exact Hw.
Qed.

Lemma preserves_disposeActivePositionSlicer (editor : option TextEditor) :
  preserves (disposeActivePositionSlicer editor).
Proof.
  unfold disposeActivePositionSlicer.
  apply preserves_bind.
  { unfold getActivePositionSlicer. destruct editor; [| apply preserves_ret].
    apply preserves_bind; [apply preserves_get | intros w0; apply preserves_ret]. }
  intros [slicer |]; [| apply preserves_ret].
  apply preserves_bind;
    [apply preserves_call, keeps_sound, keeps_this |].
  intros [this |]; [| apply preserves_ret].
  apply preserves_bind;
    [apply preserves_call, keeps_sound, keeps_dispose |]. intros _.
  apply preserves_bind; [apply preserves_delete |]. intros _.
  apply preserves_ret.
Qed.

(** [addPositions] from the toggling on, for the slicer [flowrSlicer]. *)
Lemma preserves_addPositions_rest (positions : list Position) (d : DocId)
    (flowrSlicer : nat) :
  preserves
    (r <- call flowrSlicer (togglePositions_call positions) ;;
     match r with
     | Some true =>
         call flowrSlicer updateOutput_begin ;;;
         suspend (mkPending flowrSlicer AtGetFlowrSession (InAddPositions d)) ;;;
         ret None
     | _ =>
         r <- addPositions_end flowrSlicer d ;;
         ret (Some r)
     end).
Proof.
  apply preserves_bind;
    [apply preserves_call, sound_togglePositions_call |].
  intros r.
  assert (Hend : preserves (r0 <- addPositions_end flowrSlicer d ;;
                            ret (Some r0))).
  { apply preserves_bind; [apply preserves_addPositions_end |].
    intros r0. apply preserves_ret. }
  destruct r as [[|] |]; try exact Hend.
  apply preserves_bind;
    [apply preserves_call, keeps_sound, keeps_updateOutput_begin |].
  intros _. apply preserves_bind; [| intros _; apply preserves_ret].
  apply (preserves_pending (fun w => pending w ++ [_])).
Qed.

Lemma preserves_addPositions (positions : list Position) (d : DocId) :
  preserves (addPositions positions d).
Proof.
  intros w Hw. unfold addPositions.
  unfold bind at 1. unfold get at 1.
  destruct (docSlicers w !! d) as [ref |] eqn:Hd.
  - unfold bind at 1. unfold ret at 1. unfold bind at 1. unfold ret at 1.
    now apply preserves_addPositions_rest.
  - unfold bind at 1. unfold newPositionSlicer at 1. unfold bind at 1.
    apply preserves_addPositions_rest.
    destruct Hw as [Hreg Hnn]. split.
    + intros d' r Hr. simpl in Hr. unfold docs_of. simpl.
      rewrite map_app. simpl.
      apply lookup_insert_Some in Hr as [[<- <-] | [Hne Hr]].
      * rewrite lookup_app_r by (rewrite length_map; lia).
        now rewrite length_map, Nat.sub_diag.
      * specialize (Hreg d' r Hr). unfold docs_of in Hreg.
        rewrite lookup_app_l; [exact Hreg |].
        eapply lookup_lt_Some. exact Hreg.
    + unfold offsets_nonneg in *. simpl. apply Forall_app. split; [exact Hnn |].
      repeat constructor.
Qed.

Lemma preserves_step (s : Step) : forall w, invariant w -> invariant (step w s).
Proof.
  destruct s as [positions d | editor | content e | i v | editor];
    intros w Hw; simpl; unfold exec.
  - now apply preserves_addPositions.
  - unfold addCurrentPositions. destruct editor as [[ed sels] |];
      [| exact Hw].
    unfold bind.
    pose proof (preserves_addPositions (map (fun sel => start sel) sels)
                  (editor_document ed) w Hw) as H.
    destruct (addPositions _ _ w) as [r w1]. exact H.
  - now apply preserves_didChangeTextDocument.
  - now apply preserves_resume.
  - now apply preserves_disposeActivePositionSlicer.
Qed.

(** X13. Whatever is added, edited, answered and disposed of, in whatever
    order, from the loading of the module on: [docSlicers] maps a document
    to a slicer object of that very document, and no slicer tracks a
    negative offset. *)
Theorem module_invariant (h : Host) (steps : list Step) :
  let w := fold_left step steps (initial h) in
  (forall (d : DocId) (ref : nat),
     docSlicers w !! d = Some ref ->
     exists this, slicers w !! ref = Some this /\ doc this = d) /\
  (forall (ref : nat) (this : PositionSlicer) (o : Z),
     slicers w !! ref = Some this -> In o (offsets this) -> 0 <= o).
Proof.
  cbv zeta.
  assert (Hinv : invariant (fold_left step steps (initial h))).
  { assert (H0 : invariant (initial h)).
    { split; [intros d r Hr; simpl in Hr; now rewrite lookup_empty in Hr |].
      constructor. }
    revert H0. generalize (initial h).
    induction steps as [| s rest IH]; intros w Hw; simpl; [exact Hw |].
    apply IH. now apply preserves_step. }
  destruct Hinv as [Hreg Hnn]. split.
  - intros d ref Hr. specialize (Hreg d ref Hr). unfold docs_of in Hreg.
    rewrite list_lookup_fmap in Hreg.
    destruct (slicers _ !! ref) as [this |]; [| discriminate].
    exists this. split; [reflexivity |]. simpl in Hreg. congruence.
  - intros ref this o Href Ho. unfold offsets_nonneg in Hnn.
    rewrite Forall_lookup in Hnn. specialize (Hnn ref this Href).
    rewrite List.Forall_forall in Hnn. now apply Hnn.
Qed.

(** ** [createSliceDecorations] *)

Lemma decorateLines_In (sliceLines : gset Z) (texts : list string) (i : Z)
    (ret : list Range) (r : Range) :
  In r (decorateLines sliceLines texts i ret) <->
  In r ret \/
  exists (k : nat) (t : string),
    texts !! k = Some t /\ (i + Z.of_nat k ∉ sliceLines) /\
    r = whole_line (i + Z.of_nat k) t.
Proof.
  revert i ret.
  induction texts as [| t rest IH]; intros i ret; simpl.
  - split; [now left |]. intros [H | (k & t & Hk & _)]; [exact H |].
    now rewrite lookup_nil in Hk.
  - rewrite IH. split.
    + intros [Hin | (k & t' & Hk & Hnot & ->)].
      * case_bool_decide as Hi; [now left |].
        apply in_app_or in Hin as [Hin | [<- | []]]; [now left | right].
        exists 0%nat, t. replace (i + Z.of_nat 0) with i by lia.
        repeat split; assumption.
      * right. exists (S k), t'.
        replace (i + Z.of_nat (S k)) with (i + 1 + Z.of_nat k) by lia.
        repeat split; assumption.
    + intros [Hin | (k & t' & Hk & Hnot & ->)].
      * left. case_bool_decide; [exact Hin |]. apply in_or_app. now left.
      * destruct k as [| k]; simpl in Hk.
        -- inversion Hk; subst t'. left.
           replace (i + Z.of_nat 0) with i in * by lia.
           rewrite bool_decide_eq_false_2 by exact Hnot.
           apply in_or_app. right. now left.
        -- right. exists k, t'.
           replace (i + 1 + Z.of_nat k) with (i + Z.of_nat (S k)) by lia.
           repeat split; assumption.
Qed.

Lemma decorateLines_ascending (sliceLines : gset Z) (texts : list string)
    (i : Z) (ret : list Range) :
  ascending ret ->
  Forall (fun r => line (start r) < i) ret ->
  ascending (decorateLines sliceLines texts i ret).
Proof.
  revert i ret.
  induction texts as [| t rest IH]; intros i ret Hasc Hlt; simpl;
    [exact Hasc |].
  apply IH.
  - case_bool_decide; [exact Hasc |].
    intros a b r1 r2 Ha Hb Hab.
    apply lookup_app_Some in Hb as [Hb | [Hge Hb]].
    + assert (Ha' : ret !! a = Some r1).
      { apply lookup_lt_Some in Hb. rewrite lookup_app_l in Ha by lia.
        exact Ha. }
      exact (Hasc a b r1 r2 Ha' Hb Hab).
    + apply list_lookup_singleton_Some in Hb as [Hz <-]. simpl.
      rewrite lookup_app_l in Ha by lia.
      rewrite Forall_lookup in Hlt. exact (Hlt a r1 Ha).
  - case_bool_decide.
    + eapply Forall_impl; [exact Hlt |]. simpl. intros; lia.
    + apply Forall_app. split.
      * eapply Forall_impl; [exact Hlt |]. simpl. intros; lia.
      * repeat constructor. simpl. lia.
Qed.

Lemma decorateLines_length (sliceLines : gset Z) (texts : list string)
    (i : Z) (ret : list Range) :
  (length (decorateLines sliceLines texts i ret)
   <= length ret + length texts)%nat.
Proof.
  revert i ret.
  induction texts as [| t rest IH]; intros i ret; simpl; [lia |].
  case_bool_decide.
  - specialize (IH (i + 1) ret). lia.
  - specialize (IH (i + 1) (ret ++ [whole_line i t])).
    rewrite length_app in IH. simpl in IH. unfold whole_line in IH. lia.
Qed.

(** X14. [createSliceDecorations] gives the range of a whole line, from
    its first column to the length of its text, for exactly the lines of
    the document on which no slice element starts, the lines of the
    elements counting from 1 and those of the document from 0; an element
    on a line that the document does not have changes nothing.  The
    ranges come by ascending line, so no line comes twice, and there are
    at most as many as the document has lines. *)
Theorem createSliceDecorations_lines (texts : list string)
    (sliceElements : list SliceElement) :
  let ret := createSliceDecorations texts sliceElements in
  (forall r,
     In r ret <->
     exists (k : nat) (t : string),
       texts !! k = Some t /\
       (forall s, In s sliceElements ->
                  line (start (location s)) - 1 <> Z.of_nat k) /\
       r = whole_line (Z.of_nat k) t) /\
  ascending ret /\
  (length ret <= length texts)%nat.
Proof.
  cbv zeta. unfold createSliceDecorations. split; [| split].
  - intros r. rewrite decorateLines_In. simpl. split.
    + intros [[] | (k & t & Hk & Hnot & ->)]. exists k, t.
      split; [exact Hk |]. split; [| reflexivity].
      intros s Hs Heq. apply Hnot.
      apply elem_of_list_to_set, list_elem_of_In, in_map_iff.
      exists s. split; [exact Heq | exact Hs].
    + intros (k & t & Hk & Hnot & ->). right. exists k, t.
      split; [exact Hk |]. split; [| reflexivity].
      intros Hin.
      apply elem_of_list_to_set, list_elem_of_In, in_map_iff in Hin
        as (s & Heq & Hs).
      exact (Hnot s Hs Heq).
  - apply decorateLines_ascending; [| constructor].
    intros a b r1 r2 Ha. now rewrite lookup_nil in Ha.
  - pose proof (decorateLines_length
                  (list_to_set (map (fun s => line (start (location s)) - 1)
                                  sliceElements))
                  texts 0 []) as H.
    simpl in H. exact H.
Qed.

(** ** [addPositions] and [disposeActivePositionSlicer] *)

(** X15. [addPositions] for a document without a slicer and positions of
    which none normalizes returns [undefined] at once, and [docSlicers]
    and the suspended calls are what they were; but a slicer object has
    been constructed on the way, disposed of, and left subscribed to the
    changes of documents. *)
Theorem addPositions_nothing (positions : list Position) (d : DocId)
    (w : World) :
  docSlicers w !! d = None ->
  normalizedOffsets (documents (host w) d) positions = [] ->
  let r := addPositions positions d w in
  fst r = Some None /\
  docSlicers (snd r) = docSlicers w /\
  pending (snd r) = pending w /\
  slicers (snd r) =
    slicers w ++ [mkSlicer d [] None (decoTypes (host w))] /\
  In (DisposePositionDeco (decoTypes (host w))) (log (host (snd r))).
Proof.
  destruct w as [[docs eds dt lg] sl ds pn]. simpl. intros Hd Hnone.
  unfold addPositions, bind, get, ret. simpl. rewrite Hd.
  unfold newPositionSlicer, call. simpl.
  rewrite lookup_app_r by lia. rewrite Nat.sub_diag. simpl.
  unfold togglePositions_call, bind, this_, this_doc, put_this, ret. simpl.
  rewrite togglePositions_nothing by exact Hnone. simpl.
  unfold addPositions_end, bind, call. simpl.
  rewrite list_lookup_insert_eq by (rewrite length_app; simpl; lia).
  simpl.
  rewrite list_lookup_insert_eq
    by (rewrite length_insert, length_app; simpl; lia).
  simpl.
  split; [reflexivity |]. split; [now apply delete_insert_id |].
  split; [reflexivity |]. split.
  - rewrite !list_insert_insert_eq.
    apply list_insert_id. rewrite lookup_app_r by lia.
    now rewrite Nat.sub_diag.
  - apply in_or_app. right. now left.
Qed.

(** On [a <- 1; b <- a + 1; print(b)] nothing is at the blank at offset
    3: adding it for the untracked document registers no slicer and leaves
    one object behind. *)
Lemma addPositions_nothing_witness :
  docSlicers (snd (addPositions [mkPosition 0 3] 1%positive
                     (loaded three_statements)))
    = docSlicers (loaded three_statements) /\
  length (slicers (snd (addPositions [mkPosition 0 3] 1%positive
                          (loaded three_statements)))) = 1%nat.
Proof.
  assert (H1 : docSlicers (loaded three_statements) !! 1%positive = None)
    by reflexivity.
  assert (H2 : normalizedOffsets
                 (documents (host (loaded three_statements)) 1%positive)
                 [mkPosition 0 3] = []) by reflexivity.
  pose proof (addPositions_nothing [mkPosition 0 3] 1%positive
                (loaded three_statements) H1 H2) as H.
  cbv zeta in H. destruct H as (_ & Hmap & _ & Hsl & _).
  split; [exact Hmap |]. now rewrite Hsl.
Defined.

(** X16. [disposeActivePositionSlicer] returns [true] exactly when the
    document of the active editor has a slicer; afterwards that document
    has none, while the slicers of the other documents stay registered.
    The object itself is left as it is and stays subscribed, and the calls
    suspended for it stay suspended. *)
Theorem disposeActivePositionSlicer_removes (editor : option TextEditor)
    (w : World) :
  registered w ->
  let r := disposeActivePositionSlicer editor w in
  (fst r = true <-> fst (getActivePositionSlicer editor w) <> None) /\
  fst (getActivePositionSlicer editor (snd r)) = None /\
  (forall d, editor_document <$> editor <> Some d ->
             docSlicers (snd r) !! d = docSlicers w !! d) /\
  slicers (snd r) = slicers w /\
  pending (snd r) = pending w.
Proof.
  intros Hreg. cbv zeta.
  unfold disposeActivePositionSlicer, getActivePositionSlicer.
  destruct editor as [ed |]; simpl.
  2: { repeat split; try reflexivity; try discriminate. congruence. }
  unfold bind, get, ret. simpl.
  destruct (docSlicers w !! editor_document ed) as [ref |] eqn:Hd; simpl.
  2: { rewrite Hd.
       repeat split; try reflexivity; try discriminate; try congruence. }
  specialize (Hreg _ _ Hd). unfold docs_of in Hreg.
  rewrite list_lookup_fmap in Hreg.
  destruct (slicers w !! ref) as [this |] eqn:Href; [| discriminate].
  simpl in Hreg. inversion Hreg as [Hdoc].
  rewrite (call_unchanged ref this_ w this this Href eq_refl).
  unfold call. rewrite Href.
  assert (Hthis : fst (snd (dispose (this, host w))) = this).
  { unfold dispose, bind, this_, emit, ret. simpl.
    destruct (sliceDecos this); reflexivity. }
  destruct (dispose (this, host w)) as [[] [this1 h1]]. simpl in *.
  subst this1. rewrite Hdoc.
  split; [split; [discriminate | reflexivity] |].
  split; [apply lookup_delete_eq |].
  split; [| split; [now apply list_insert_id | reflexivity]].
  intros d Hne. apply lookup_delete_ne. congruence.
Qed.

(** The slicer that tracks the [b] of [ b <- 1] is disposed of through the
    editor of its document. *)
Lemma disposeActivePositionSlicer_removes_witness :
  fst (disposeActivePositionSlicer (Some (mkEditor 0 1)) tracking_b) = true /\
  fst (getActivePositionSlicer (Some (mkEditor 0 1))
         (snd (disposeActivePositionSlicer (Some (mkEditor 0 1)) tracking_b)))
    = None.
Proof.
  assert (Hreg : registered tracking_b).
  { intros d ref Hr.
    assert (Hmap : docSlicers tracking_b
                   = <[1%positive := 0%nat]> (∅ : gmap positive nat))
      by (vm_compute; reflexivity).
    rewrite Hmap in Hr.
    apply lookup_insert_Some in Hr as [[<- <-] | [_ Hr]].
    - vm_compute. reflexivity.
    - now rewrite lookup_empty in Hr. }
  pose proof (disposeActivePositionSlicer_removes (Some (mkEditor 0 1))
                tracking_b Hreg) as H.
  cbv zeta in H. destruct H as (Htrue & Hnone & _).
  split; [| exact Hnone].
  apply Htrue. vm_compute. discriminate.
Defined.

(** ** The commands on the session registry *)

Lemma destroy_if_present_live (r : Registry) :
  live_is_current r -> live_is_current (destroy_if_present r).
Proof.
  intros Hr j s Hj Hlive. unfold destroy_if_present in *.
  destruct (flowrSession r) as [ref |] eqn:Hfs; [| now apply (Hr j s)].
  simpl in *. destruct (decide (ref = j)) as [-> | Hne]; [reflexivity |].
  rewrite list_lookup_alter_ne in Hj by exact Hne.
  rewrite <- Hfs. exact (Hr j s Hj Hlive).
Qed.

Lemma destroy_if_present_none_live (r : Registry) (j : nat) (s : Session) :
  live_is_current r ->
  sessions (destroy_if_present r) !! j = Some s -> live s = false.
Proof.
  intros Hr Hj. unfold destroy_if_present in Hj.
  destruct (flowrSession r) as [ref |] eqn:Hfs; simpl in Hj.
  - destruct (decide (ref = j)) as [-> | Hne].
    + rewrite list_lookup_alter_eq in Hj.
      destruct (sessions r !! j) as [s0 |]; [| discriminate].
      simpl in Hj. inversion Hj. reflexivity.
    + rewrite list_lookup_alter_ne in Hj by exact Hne.
      destruct (live s) eqn:Hl; [| reflexivity].
      specialize (Hr j s Hj Hl). congruence.
  - destruct (live s) eqn:Hl; [| reflexivity].
    specialize (Hr j s Hj Hl). congruence.
Qed.

Lemma assign_new_live (k : SessionKind) (r : Registry) :
  (forall j s, sessions r !! j = Some s -> live s = false) ->
  live_is_current (assign_new k r) /\ has_session (assign_new k r).
Proof.
  intros Hdead. split.
  - intros j s Hj Hlive. simpl in *.
    apply lookup_app_Some in Hj as [Hj | [Hge Hj]].
    + rewrite (Hdead j s Hj) in Hlive. discriminate.
    + apply list_lookup_singleton_Some in Hj as [Hz _]. f_equal. lia.
  - exists (length (sessions r)), (mkSession k 0). split; [reflexivity |].
    simpl. rewrite lookup_app_r by lia. now rewrite Nat.sub_diag.
Qed.

Lemma Extension_establish_live (k : SessionKind) (r : Registry) :
  live_is_current r ->
  live_is_current (assign_new k (destroy_if_present r)) /\
  has_session (assign_new k (destroy_if_present r)).
Proof.
  intros Hr. apply assign_new_live. intros j s Hj.
  now apply (destroy_if_present_none_live r j s).
Qed.

Lemma is_server_assign_new (k : SessionKind) (r : Registry) :
  is_server_session (assign_new k r) =
  match k with FlowrServerSession => true | FlowrInternalSession => false end.
Proof.
  unfold is_server_session. simpl.
  rewrite lookup_app_r by lia. rewrite Nat.sub_diag. reflexivity.
Qed.

Lemma ExtensionActivate_run_live (r : Registry) (c : Command) :
  live_is_current r /\ has_session r ->
  live_is_current (ExtensionActivate.run r c) /\
  has_session (ExtensionActivate.run r c).
Proof.
  intros [Hl Hs]. destruct c as [| | b |]; simpl.
  - now apply Extension_establish_live.
  - unfold ExtensionActivate.disconnect.
    destruct (is_server_session r); [| now split].
    now apply Extension_establish_live.
  - now split.
  - unfold ExtensionActivate.shutdown.
    destruct Hs as (i & s & Hi & Hs). rewrite Hi. simpl. split.
    + now apply destroy_if_present_live.
    + unfold destroy_if_present. rewrite Hi.
      exists i, (mkSession (kind s) (S (destroy_calls s))).
      split; [reflexivity |]. simpl.
      now rewrite list_lookup_alter_eq, Hs.
Qed.

(** X17. In the first revision, after [activate] with either setting and
    any sequence of connects, disconnects and disposals: there is a
    session object that [flowrSession] refers to, so that the disposal
    never calls [destroy()] on [undefined]; every session that has been
    constructed and not destroyed is that one; and right after a
    disconnect the session is not a server session. *)
Theorem Extension_commands (autoConnect : bool) (cmds : list Command)
    (r0 : Registry) :
  let r := fold_left ExtensionActivate.run cmds
             (ExtensionActivate.activate autoConnect no_session) in
  has_session r /\
  live_is_current r /\
  ExtensionActivate.shutdown r <> None /\
  is_server_session (ExtensionActivate.disconnect r0) = false.
Proof.
  cbv zeta.
  assert (H0 : live_is_current (ExtensionActivate.activate autoConnect
                                  no_session) /\
               has_session (ExtensionActivate.activate autoConnect
                              no_session)).
  { unfold ExtensionActivate.activate.
    destruct autoConnect; apply Extension_establish_live;
      intros j s Hj; simpl in Hj; now rewrite lookup_nil in Hj. }
  assert (H : live_is_current
                (fold_left ExtensionActivate.run cmds
                   (ExtensionActivate.activate autoConnect no_session)) /\
              has_session
                (fold_left ExtensionActivate.run cmds
                   (ExtensionActivate.activate autoConnect no_session))).
  { revert H0. generalize (ExtensionActivate.activate autoConnect no_session).
    induction cmds as [| c rest IH]; intros r Hr; simpl; [exact Hr |].
    apply IH. now apply ExtensionActivate_run_live. }
  destruct H as [Hl Hs]. split; [exact Hs |]. split; [exact Hl |]. split.
  - destruct Hs as (i & s & Hi & _). unfold ExtensionActivate.shutdown.
    rewrite Hi. discriminate.
  - unfold ExtensionActivate.disconnect.
    destruct (is_server_session r0) eqn:Hsrv; [| exact Hsrv].
    apply is_server_assign_new.
Qed.

Lemma Part000Activate_run_single (r : Registry) (c : Command) :
  single_session r -> single_session (Part000Activate.run r c).
Proof.
  intros Hr. destruct c as [| | b |]; simpl.
  - exact (Part000_step_single r EstablishServer Hr).
  - unfold Part000Activate.disconnect.
    destruct (is_server_session r); [| exact Hr].
    now apply destroySession_single.
  - unfold Part000Activate.dataflow. destruct b; [| exact Hr].
    destruct (flowrSession r); [exact Hr |].
    exact (Part000_step_single r EstablishInternal Hr).
  - now apply destroySession_single.
Qed.

(** X18. In the later revision, after [activate] with either setting and
    any sequence of connects, disconnects, dataflow commands and
    disposals: every session that has been constructed and not destroyed
    is the one [flowrSession] refers to, and no session has received
    [destroy()] twice.  The dataflow command establishes an internal
    session only when there is no session, and leaves a present session,
    of whichever class, in place; right after a disconnect there is no
    server session. *)
Theorem Part000_commands (autoConnect : bool) (cmds : list Command)
    (r0 : Registry) (b : bool) :
  single_session
    (fold_left Part000Activate.run cmds
       (Part000Activate.activate autoConnect no_session)) /\
  (flowrSession r0 <> None -> Part000Activate.dataflow b r0 = r0) /\
  is_server_session (Part000Activate.dataflow true r0) =
    is_server_session r0 /\
  is_server_session (Part000Activate.disconnect r0) = false.
Proof.
  split; [| split; [| split]].
  - assert (H0 : single_session
                   (Part000Activate.activate autoConnect no_session)).
    { unfold Part000Activate.activate. destruct autoConnect.
      - exact (Part000_step_single no_session EstablishServer
                 no_session_single).
      - exact no_session_single. }
    revert H0. generalize (Part000Activate.activate autoConnect no_session).
    induction cmds as [| c rest IH]; intros r Hr; simpl; [exact Hr |].
    apply IH. now apply Part000Activate_run_single.
  - intros Hs. unfold Part000Activate.dataflow.
    destruct b; [| reflexivity]. destruct (flowrSession r0); congruence.
  - unfold Part000Activate.dataflow.
    destruct (flowrSession r0) eqn:Hfs; [reflexivity |].
    unfold Part000.establishInternalSession.
    rewrite is_server_assign_new. unfold is_server_session. now rewrite Hfs.
  - unfold Part000Activate.disconnect.
    destruct (is_server_session r0) eqn:Hsrv; [reflexivity | exact Hsrv].
Qed.

(** In a registry with a session, the dataflow command changes nothing. *)
Lemma Part000_commands_witness :
  Part000Activate.dataflow true (Part000.establishServerSession no_session)
  = Part000.establishServerSession no_session.
Proof.
  apply (Part000_commands false [] (Part000.establishServerSession no_session)
           true).
  discriminate.
Defined.

(** X19. The disposal of the first revision calls [destroy()] and leaves
    [flowrSession] as it is, so that a session established afterwards
    calls [destroy()] on the old session once more; in the later revision
    [destroySession] clears [flowrSession], and the old session receives
    the one call. *)
Theorem shutdown_then_establish (r : Registry) (i : nat) (s : Session) :
  flowrSession r = Some i ->
  sessions r !! i = Some s ->
  (exists r1,
     ExtensionActivate.shutdown r = Some r1 /\
     sessions (Extension.establishServerSession r1) !! i =
       Some (mkSession (kind s) (S (S (destroy_calls s))))) /\
  sessions (Part000.establishServerSession (Part000.destroySession r)) !! i =
    Some (mkSession (kind s) (S (destroy_calls s))).
Proof.
  intros Hi Hs. pose proof (lookup_lt_Some _ _ _ Hs) as Hlt. split.
  - exists (destroy_if_present r). unfold ExtensionActivate.shutdown.
    rewrite Hi. split; [reflexivity |].
    unfold Extension.establishServerSession, assign_new, destroy_if_present.
    rewrite Hi. simpl.
    rewrite lookup_app_l by (rewrite !length_alter; exact Hlt).
    now rewrite !list_lookup_alter_eq, Hs.
  - unfold Part000.establishServerSession, Part000.destroySession, assign_new,
      destroy_if_present.
    rewrite Hi. simpl.
    rewrite lookup_app_l by (rewrite length_alter; exact Hlt).
    now rewrite list_lookup_alter_eq, Hs.
Qed.

(** With one internal session. *)
Lemma shutdown_then_establish_witness :
  sessions (Part000.establishServerSession
              (Part000.destroySession
                 (Part000.establishInternalSession no_session))) !! 0%nat =
  Some (mkSession FlowrInternalSession 1).
Proof.
  apply (shutdown_then_establish
           (Part000.establishInternalSession no_session) 0
           (mkSession FlowrInternalSession 0)); reflexivity.
Defined.

Lemma run_with_status_fst (state : nat -> string)
    (st : Registry * StatusBarItem) (c : ActiveCommand) :
  fst (run_with_status state st c) =
  ExtensionActivate.run (fst st) (to_command c).
Proof.
  destruct st as [r item]. destruct c; simpl; try reflexivity.
  unfold ExtensionActivate.disconnect.
  destruct (is_server_session r); reflexivity.
Qed.

Lemma updateServerStatus_shown (state : nat -> string) (r : Registry)
    (item : StatusBarItem) :
  shown (updateServerStatus state r item) = is_server_session r.
Proof.
  unfold updateServerStatus.
  destruct (is_server_session r) eqn:Hsrv; [| reflexivity].
  unfold is_server_session in Hsrv.
  destruct (flowrSession r); [reflexivity | discriminate].
Qed.

Lemma is_server_destroy_if_present (r : Registry) :
  is_server_session (destroy_if_present r) = is_server_session r.
Proof.
  unfold is_server_session, destroy_if_present.
  destruct (flowrSession r) as [ref |] eqn:Hfs; simpl; rewrite ?Hfs;
    [| reflexivity].
  rewrite list_lookup_alter_eq.
  destruct (sessions r !! ref); reflexivity.
Qed.

(** X20. In the first revision the status bar item is shown exactly while
    [flowrSession] is a server session: after [activate] with either
    setting and any sequence of connects, disconnects and runs of the
    [SIGINT] handler, whatever the states of the sessions are.  The
    disposal of the subscriptions of the extension ends this: the item is
    disposed of with them and shown no longer, while [flowrSession] is the
    session object it was, a server session or not. *)
Theorem status_shows_server (state : nat -> string) (autoConnect : bool)
    (cmds : list ActiveCommand) :
  let st := fold_left (run_with_status state) cmds
              (activate_with_status state autoConnect) in
  shown (snd st) = is_server_session (fst st) /\
  fst st = fold_left ExtensionActivate.run (map to_command cmds)
             (ExtensionActivate.activate autoConnect no_session) /\
  shown (snd (dispose_subscriptions st)) = false /\
  is_server_session (fst (dispose_subscriptions st)) =
    is_server_session (fst st).
Proof.
  cbv zeta.
  assert (H0 : shown (snd (activate_with_status state autoConnect)) =
               is_server_session (fst (activate_with_status state autoConnect))
               /\ fst (activate_with_status state autoConnect) =
                  ExtensionActivate.activate autoConnect no_session).
  { unfold activate_with_status. simpl. split; [| reflexivity].
    apply updateServerStatus_shown. }
  assert (H : shown (snd (fold_left (run_with_status state) cmds
                            (activate_with_status state autoConnect))) =
              is_server_session
                (fst (fold_left (run_with_status state) cmds
                        (activate_with_status state autoConnect))) /\
              fst (fold_left (run_with_status state) cmds
                     (activate_with_status state autoConnect)) =
              fold_left ExtensionActivate.run (map to_command cmds)
                (ExtensionActivate.activate autoConnect no_session)).
  { revert H0. generalize (activate_with_status state autoConnect).
    generalize (ExtensionActivate.activate autoConnect no_session).
    induction cmds as [| c rest IH]; intros r st [Hshown Hfst]; simpl.
    - now split.
    - apply IH. split.
      + destruct st as [r1 item]. simpl in *.
        destruct c; simpl.
        * apply updateServerStatus_shown.
        * destruct (is_server_session r1) eqn:Hsrv; simpl.
          -- apply updateServerStatus_shown.
          -- now rewrite Hsrv.
        * rewrite Hshown. unfold ExtensionActivate.shutdown.
          destruct (flowrSession r1) eqn:Hfs; simpl; [| reflexivity].
          now rewrite is_server_destroy_if_present.
      + rewrite run_with_status_fst. now rewrite Hfst. }
  destruct H as [Hshown Hfst]. split; [exact Hshown |]. split; [exact Hfst |].
  destruct (fold_left (run_with_status state) cmds
              (activate_with_status state autoConnect)) as [r item].
  simpl. split; [reflexivity |].
  unfold ExtensionActivate.shutdown.
  destruct (flowrSession r) eqn:Hfs; simpl; [| reflexivity].
  apply is_server_destroy_if_present.
Qed.
